(** * db-orm: the instrumentation and transaction layer of [orm/db.go]

    A shallow embedding of [orm/db.go]: the connection executor [DBStore], the
    transaction executor [DBTx], the tracing decorator [TracedDB] and the two
    factories.  Go objects reached through pointers live in a heap (a [gmap]
    from locations to records), the methods are computations of a state monad
    over the [World], which holds the heap together with everything external
    the methods talk to: the clock, the logger, the tracer, the contexts and
    [database/sql]. *)

From Stdlib Require Import Ascii String.
From stdpp Require Import base numbers strings list gmap pretty.

Open Scope Z_scope.

(** ** Go values *)

(** A Go [error] is an interface value; [nil] is [None].  Every error of this
    file is identified by the text its [Error()] method returns. *)
Record error := errorString { Error : string }.

Definition context_Canceled : error := errorString "context canceled".
Definition context_DeadlineExceeded : error :=
  errorString "context deadline exceeded".
Definition sql_ErrTxDone : error :=
  errorString "sql: transaction has already been committed or rolled back".

(** [args ...interface{}]: the statement arguments, passed on untouched. *)
Inductive Arg :=
  | ArgInt (z : Z)
  | ArgString (s : string)
  | ArgNil.

(** Heap locations, handles of [database/sql] objects ([*sql.DB], [*sql.Tx]),
    returned [*sql.Rows] and [sql.Result] values, contexts and spans are all
    references; only their identity matters here. *)
Definition loc := nat.
Definition handle := nat.
Definition Rows := nat.
Definition Result := nat.
Definition ctx_ref := nat.
Definition Span := nat.

(** A [context.Context] interface value: [None] is the nil context. *)
Definition Context := option ctx_ref.

(** [time.Duration] is an int64 count of nanoseconds. *)
Definition Duration := Z.
Definition minDuration : Duration := - 2 ^ 63.
Definition maxDuration : Duration := 2 ^ 63 - 1.

(** ** The structs of [db.go] *)

Record DBStore := mkDBStore {
  store_DB : option handle;        (* the embedded *sql.DB, nil after Close *)
  store_debug : bool;
  store_slowlog : Duration;
}.

Record DBTx := mkDBTx {
  tx_tx : handle;                  (* *sql.Tx *)
  tx_debug : bool;
  tx_slowlog : Duration;
  tx_err : option error;
  tx_rowsAffected : Z;             (* int64 *)
  tx_Ctx : Context;
}.

(** ** The outside world *)

(** One line handed to [log.Println]. *)
Inductive LogLine :=
  | DEBUG (sql : string) (args : list Arg)
  | SLOW (span : Duration) (sql : string) (args : list Arg).

(** What the tracer is asked to do. *)
Inductive SpanEvent :=
  | SpanStart (s : Span) (operationName : string) (ctx : Context)
  | SpanLogString (s : Span) (key : string) (sql : string) (args : list Arg)
  | SpanTagError (s : Span)
  | SpanLogError (s : Span) (err : error)
  | SpanFinish (s : Span).

(** The calls that reach [database/sql]. *)
Inductive SqlCall :=
  | sql_Open (driver dsn : string)
  | DB_Query (db : handle) (sql : string) (args : list Arg)
  | DB_Exec (db : handle) (sql : string) (args : list Arg)
  | DB_Close (db : handle)
  | DB_Begin (db : handle)
  | Tx_Query (tx : handle) (sql : string) (args : list Arg)
  | Tx_QueryContext (tx : handle) (ctx : ctx_ref) (sql : string) (args : list Arg)
  | Tx_Exec (tx : handle) (sql : string) (args : list Arg)
  | Tx_ExecContext (tx : handle) (ctx : ctx_ref) (sql : string) (args : list Arg)
  | Tx_Commit (tx : handle)
  | Tx_Rollback (tx : handle).

(** What [database/sql] answers: a value (rows, result or handle) and an error. *)
Record Reply := mkReply { rep_val : nat; rep_err : option error }.

Record World := mkWorld {
  (* time.Now(): the reading of the n-th call, and how many were made *)
  w_clock : nat → Z;
  w_tick : nat;
  (* database/sql and the server behind it: the answer to a call, given the
     calls made before it; and the calls made so far, oldest first *)
  w_sql : list SqlCall → SqlCall → Reply;
  w_calls : list SqlCall;
  (* the contexts whose Done channel is closed, with what Err() returns *)
  w_done : gmap ctx_ref error;
  (* the lines printed by the log package, oldest first *)
  w_log : list LogLine;
  (* the requests made to the tracer, oldest first *)
  w_spans : list SpanEvent;
  (* the heap *)
  w_stores : gmap loc DBStore;
  w_txs : gmap loc DBTx;
}.

Definition set_tick (n : nat) (w : World) : World :=
  mkWorld (w_clock w) n (w_sql w) (w_calls w) (w_done w) (w_log w)
          (w_spans w) (w_stores w) (w_txs w).
Definition set_calls (cs : list SqlCall) (w : World) : World :=
  mkWorld (w_clock w) (w_tick w) (w_sql w) cs (w_done w) (w_log w)
          (w_spans w) (w_stores w) (w_txs w).
Definition set_done (d : gmap ctx_ref error) (w : World) : World :=
  mkWorld (w_clock w) (w_tick w) (w_sql w) (w_calls w) d (w_log w)
          (w_spans w) (w_stores w) (w_txs w).
Definition set_log (l : list LogLine) (w : World) : World :=
  mkWorld (w_clock w) (w_tick w) (w_sql w) (w_calls w) (w_done w) l
          (w_spans w) (w_stores w) (w_txs w).
Definition set_spans (sp : list SpanEvent) (w : World) : World :=
  mkWorld (w_clock w) (w_tick w) (w_sql w) (w_calls w) (w_done w) (w_log w)
          sp (w_stores w) (w_txs w).
Definition set_stores (h : gmap loc DBStore) (w : World) : World :=
  mkWorld (w_clock w) (w_tick w) (w_sql w) (w_calls w) (w_done w) (w_log w)
          (w_spans w) h (w_txs w).
Definition set_txs (h : gmap loc DBTx) (w : World) : World :=
  mkWorld (w_clock w) (w_tick w) (w_sql w) (w_calls w) (w_done w) (w_log w)
          (w_spans w) (w_stores w) h.

(** ** Computations *)

(** A Go call either returns or panics. *)
Inductive Res (A : Type) :=
  | Ret (a : A)
  | Panic (msg : string).
Arguments Ret {A} a.
Arguments Panic {A} msg.

Definition M (A : Type) : Type := World → Res A * World.

Definition ret {A} (a : A) : M A := λ w, (Ret a, w).

Definition bind {A B} (m : M A) (k : A → M B) : M B :=
  λ w, match m w with
       | (Ret a, w') => k a w'
       | (Panic msg, w') => (Panic msg, w')
       end.

Global Instance M_ret : MRet M := @ret.
Global Instance M_bind : MBind M := λ A B k m, bind m k.

Definition panic {A} (msg : string) : M A := λ w, (Panic msg, w).

(** [defer d; body]: [d] runs when [body] has returned or panicked; the
    outcome is that of [body], unless [d] panics itself. *)
Definition defer {A} (d : M unit) (body : M A) : M A :=
  λ w, let (r, w1) := body w in
       match d w1 with
       | (Ret _, w2) => (r, w2)
       | (Panic msg, w2) => (Panic msg, w2)
       end.

Definition when (b : bool) (m : M unit) : M unit :=
  if b then m else ret tt.

Definition nil_deref : string :=
  "runtime error: invalid memory address or nil pointer dereference".

(** *** Primitives *)

Definition time_Now : M Z :=
  λ w, (Ret (w_clock w (w_tick w)), set_tick (S (w_tick w)) w).

(** [t.Sub(u)]: the difference, saturated to the range of [Duration]. *)
Definition time_Sub (t u : Z) : Duration :=
  Z.max minDuration (Z.min maxDuration (t - u)).

Definition log_Println (l : LogLine) : M unit :=
  λ w, (Ret tt, set_log (w_log w ++ [l]) w).

Definition sql_call (c : SqlCall) : M Reply :=
  λ w, (Ret (w_sql w (w_calls w) c), set_calls (w_calls w ++ [c]) w).

(** [select { case <-ctx.Done(): ...; default: }] and [ctx.Err()]. *)
Definition ctx_Done (c : ctx_ref) : M bool :=
  λ w, (Ret (bool_decide (is_Some (w_done w !! c))), w).
Definition ctx_Err (c : ctx_ref) : M (option error) :=
  λ w, (Ret (w_done w !! c), w).

(** Reading and writing the objects behind [*DBStore] and [*DBTx]. *)
Definition load_store (p : loc) : M DBStore :=
  λ w, match w_stores w !! p with
       | Some s => (Ret s, w)
       | None => (Panic nil_deref, w)
       end.
Definition save_store (p : loc) (s : DBStore) : M unit :=
  λ w, (Ret tt, set_stores (<[p := s]> (w_stores w)) w).
Definition load_tx (p : loc) : M DBTx :=
  λ w, match w_txs w !! p with
       | Some t => (Ret t, w)
       | None => (Panic nil_deref, w)
       end.
Definition save_tx (p : loc) (t : DBTx) : M unit :=
  λ w, (Ret tt, set_txs (<[p := t]> (w_txs w)) w).

(** Methods of [*sql.DB] reached through a pointer that may be nil: they
    dereference their receiver, so a nil receiver panics. *)
Definition sqlDB_call (db : option handle) (c : handle → SqlCall) : M Reply :=
  match db with
  | None => panic nil_deref
  | Some h => sql_call (c h)
  end.

(** The tracer ([opentracing-go]).  [opentracing.StartSpanFromContext] first
    looks for a parent span in the context, with [ctx.Value]: on a nil
    context that is a method call on a nil interface, which panics before
    any span is started.  A started span is identified by the number of
    requests the tracer had received before it. *)
Definition StartSpanFromContext (ctx : Context) (operationName : string) : M Span :=
  match ctx with
  | None => panic nil_deref
  | Some _ =>
      λ w, let s := length (w_spans w) in
           (Ret s, set_spans (w_spans w ++ [SpanStart s operationName ctx]) w)
  end.
Definition span_emit (e : SpanEvent) : M unit :=
  λ w, (Ret tt, set_spans (w_spans w ++ [e]) w).

(** ** [DBStore] *)

Definition new_store (s : DBStore) : M loc :=
  λ w, let p := fresh (dom (w_stores w)) in
       (Ret p, set_stores (<[p := s]> (w_stores w)) w).

(** [func (store *DBStore) Debug(b bool)] *)
Definition DBStore_Debug (store : loc) (b : bool) : M unit :=
  s ← load_store store;
  save_store store (mkDBStore (store_DB s) b (store_slowlog s)).

(** [func (store *DBStore) SlowLog(duration time.Duration)] *)
Definition DBStore_SlowLog (store : loc) (duration : Duration) : M unit :=
  s ← load_store store;
  save_store store (mkDBStore (store_DB s) (store_debug s) duration).

(** [func (store *DBStore) Query(sql string, args ...interface{})]: the clock
    is read, the slow-log check is deferred when the threshold is positive,
    the debug line is printed, and the call goes to the embedded [*sql.DB]. *)
Definition DBStore_Query (store : loc) (sql : string) (args : list Arg)
  : M (Rows * option error) :=
  t1 ← time_Now;
  s ← load_store store;
  (if 0 <? store_slowlog s
   then defer (t2 ← time_Now;
               let span := time_Sub t2 t1 in
               s ← load_store store;
               when (store_slowlog s <? span) (log_Println (SLOW span sql args)))
   else id)
    (s ← load_store store;
     when (store_debug s) (log_Println (DEBUG sql args));;
     s ← load_store store;
     r ← sqlDB_call (store_DB s) (λ h, DB_Query h sql args);
     mret (rep_val r, rep_err r)).

(** [func (store *DBStore) Exec(sql string, args ...interface{})] *)
Definition DBStore_Exec (store : loc) (sql : string) (args : list Arg)
  : M (Result * option error) :=
  t1 ← time_Now;
  s ← load_store store;
  (if 0 <? store_slowlog s
   then defer (t2 ← time_Now;
               let span := time_Sub t2 t1 in
               s ← load_store store;
               when (store_slowlog s <? span) (log_Println (SLOW span sql args)))
   else id)
    (s ← load_store store;
     when (store_debug s) (log_Println (DEBUG sql args));;
     s ← load_store store;
     r ← sqlDB_call (store_DB s) (λ h, DB_Exec h sql args);
     mret (rep_val r, rep_err r)).

(** [func (store *DBStore) SetError(err error) {}] *)
Definition DBStore_SetError (store : loc) (err : option error) : M unit :=
  mret tt.

(** [func (store *DBStore) Close() error]: on success the handle is set to
    nil. *)
Definition DBStore_Close (store : loc) : M (option error) :=
  s ← load_store store;
  r ← sqlDB_call (store_DB s) DB_Close;
  match rep_err r with
  | Some err => mret (Some err)
  | None =>
      s ← load_store store;
      save_store store (mkDBStore None (store_debug s) (store_slowlog s));;
      mret None
  end.

(** ** [DBTx] *)

Definition new_tx (t : DBTx) : M loc :=
  λ w, let p := fresh (dom (w_txs w)) in
       (Ret p, set_txs (<[p := t]> (w_txs w)) w).

(** [func (store *DBStore) BeginTx(ctx context.Context)]: the fields left out
    of the struct literal, [err] and [rowsAffected], are zero. *)
Definition DBStore_BeginTx (store : loc) (ctx : Context)
  : M (option loc * option error) :=
  s ← load_store store;
  r ← sqlDB_call (store_DB s) DB_Begin;
  match rep_err r with
  | Some err => mret (None, Some err)
  | None =>
      s ← load_store store;
      p ← new_tx (mkDBTx (rep_val r) (store_debug s) (store_slowlog s) None 0 ctx);
      mret (Some p, None)
  end.

(** [tx.err = err] *)
Definition tx_set_err (tx : loc) (err : option error) : M unit :=
  t ← load_tx tx;
  save_tx tx (mkDBTx (tx_tx t) (tx_debug t) (tx_slowlog t) err
                     (tx_rowsAffected t) (tx_Ctx t)).

(** [func (tx *DBTx) Close() error] *)
Definition DBTx_Close (tx : loc) : M (option error) :=
  t ← load_tx tx;
  match tx_Ctx t with
  | Some c =>
      done ← ctx_Done c;
      if done : bool then e ← ctx_Err c; tx_set_err tx e else mret tt
  | None => mret tt
  end;;
  t ← load_tx tx;
  match tx_err t with
  | Some _ => r ← sql_call (Tx_Rollback (tx_tx t)); mret (rep_err r)
  | None => r ← sql_call (Tx_Commit (tx_tx t)); mret (rep_err r)
  end.

(** [func (tx *DBTx) Query(sql string, args ...interface{})]: with a context
    the call is [QueryContext], without one [Query]; either way the error of
    the call is assigned to [tx.err]. *)
Definition DBTx_Query (tx : loc) (sql : string) (args : list Arg)
  : M (Rows * option error) :=
  t1 ← time_Now;
  t ← load_tx tx;
  (if 0 <? tx_slowlog t
   then defer (t2 ← time_Now;
               let span := time_Sub t2 t1 in
               t ← load_tx tx;
               when (tx_slowlog t <? span) (log_Println (SLOW span sql args)))
   else id)
    (t ← load_tx tx;
     when (tx_debug t) (log_Println (DEBUG sql args));;
     t ← load_tx tx;
     match tx_Ctx t with
     | Some c =>
         r ← sql_call (Tx_QueryContext (tx_tx t) c sql args);
         tx_set_err tx (rep_err r);;
         mret (rep_val r, rep_err r)
     | None =>
         r ← sql_call (Tx_Query (tx_tx t) sql args);
         tx_set_err tx (rep_err r);;
         t ← load_tx tx;
         mret (rep_val r, tx_err t)
     end).

(** [func (tx *DBTx) Exec(sql string, args ...interface{})] *)
Definition DBTx_Exec (tx : loc) (sql : string) (args : list Arg)
  : M (Result * option error) :=
  t1 ← time_Now;
  t ← load_tx tx;
  (if 0 <? tx_slowlog t
   then defer (t2 ← time_Now;
               let span := time_Sub t2 t1 in
               t ← load_tx tx;
               when (tx_slowlog t <? span) (log_Println (SLOW span sql args)))
   else id)
    (t ← load_tx tx;
     when (tx_debug t) (log_Println (DEBUG sql args));;
     t ← load_tx tx;
     match tx_Ctx t with
     | Some c =>
         r ← sql_call (Tx_ExecContext (tx_tx t) c sql args);
         tx_set_err tx (rep_err r);;
         mret (rep_val r, rep_err r)
     | None =>
         r ← sql_call (Tx_Exec (tx_tx t) sql args);
         tx_set_err tx (rep_err r);;
         mret (rep_val r, rep_err r)
     end).

(** [func (tx *DBTx) SetError(err error)] *)
Definition DBTx_SetError (tx : loc) (err : option error) : M unit :=
  tx_set_err tx err.

(** [func (tx *DBTx) SetContext(ctx context.Context)] *)
Definition DBTx_SetContext (tx : loc) (ctx : Context) : M unit :=
  t ← load_tx tx;
  save_tx tx (mkDBTx (tx_tx t) (tx_debug t) (tx_slowlog t) (tx_err t)
                     (tx_rowsAffected t) ctx).

(** ** The [DB] interface and [TracedDB] *)

(** An interface value is its method set. *)
Record DB := mkDB {
  Query : string → list Arg → M (Rows * option error);
  Exec : string → list Arg → M (Result * option error);
  SetError : option error → M unit;
}.

Definition DBStore_DB (store : loc) : DB :=
  mkDB (DBStore_Query store) (DBStore_Exec store) (DBStore_SetError store).
Definition DBTx_DB (tx : loc) : DB :=
  mkDB (DBTx_Query tx) (DBTx_Exec tx) (DBTx_SetError tx).

Record TracedDB := mkTracedDB {
  traced_DB : DB;                 (* the embedded DB *)
  traced_ctx : Context;
}.

(** [ottag.Error.Set(span, true)] and [span.LogFields(otlog.Error(err))] *)
Definition logErrorToSpan (span : Span) (err : error) : M unit :=
  span_emit (SpanTagError span);;
  span_emit (SpanLogError span err).

(** [func (db *TracedDB) Query(sql string, args ...interface{})]: the span is
    started and tagged, [span.Finish()] is deferred, the call goes to the
    embedded [DB], and an error is logged to the span. *)
Definition TracedDB_Query (db : TracedDB) (sql : string) (args : list Arg)
  : M (Rows * option error) :=
  span ← StartSpanFromContext (traced_ctx db) "DB Query";
  span_emit (SpanLogString span "sql.query" sql args);;
  defer (span_emit (SpanFinish span))
    ('(rows, err) ← Query (traced_DB db) sql args;
     match err with
     | Some e => logErrorToSpan span e
     | None => mret tt
     end;;
     mret (rows, err)).

(** [func (db *TracedDB) Exec(sql string, args ...interface{})] *)
Definition TracedDB_Exec (db : TracedDB) (sql : string) (args : list Arg)
  : M (Result * option error) :=
  span ← StartSpanFromContext (traced_ctx db) "DB Exec";
  span_emit (SpanLogString span "sql.query" sql args);;
  defer (span_emit (SpanFinish span))
    ('(result, err) ← Exec (traced_DB db) sql args;
     match err with
     | Some e => logErrorToSpan span e
     | None => mret tt
     end;;
     mret (result, err)).

(** [func (db *TracedDB) SetError(error) {}]: declared on [*TracedDB], it
    takes the place of the [SetError] of the embedded [DB]. *)
Definition TracedDB_SetError (db : TracedDB) (err : option error) : M unit :=
  mret tt.

Definition TracedDB_DB (db : TracedDB) : DB :=
  mkDB (TracedDB_Query db) (TracedDB_Exec db) (TracedDB_SetError db).

(** [func OpenTrace(ctx context.Context, db DB) DB] *)
Definition OpenTrace (ctx : Context) (db : DB) : DB :=
  TracedDB_DB (mkTracedDB db ctx).

(** ** The factories *)

(** [strings.ToLower], on byte strings.  A string of ASCII bytes is mapped byte
    by byte; any other string goes through the Unicode case tables of the Go
    library, which are not part of this repository and are taken as a
    parameter. *)
Definition RuneSelf : nat := 128.

Definition is_upper (c : ascii) : bool :=
  ((nat_of_ascii "A"%char <=? nat_of_ascii c)
   && (nat_of_ascii c <=? nat_of_ascii "Z"%char))%nat.

Definition lower_byte (c : ascii) : ascii :=
  if is_upper c
  then ascii_of_nat (nat_of_ascii c + (nat_of_ascii "a"%char - nat_of_ascii "A"%char))
  else c.

Fixpoint isASCII (s : string) : bool :=
  match s with
  | EmptyString => true
  | String c s' => (nat_of_ascii c <? RuneSelf)%nat && isASCII s'
  end.

Fixpoint hasUpper (s : string) : bool :=
  match s with
  | EmptyString => false
  | String c s' => is_upper c || hasUpper s'
  end.

Fixpoint map_bytes (f : ascii → ascii) (s : string) : string :=
  match s with
  | EmptyString => EmptyString
  | String c s' => String (f c) (map_bytes f s')
  end.

Section Factory.

(** [strings.Map(unicode.ToLower, s)] *)
Variable unicode_ToLower : string → string.

Definition strings_ToLower (s : string) : string :=
  if isASCII s
  then if negb (hasUpper s) then s else map_bytes lower_byte s
  else unicode_ToLower s.

(** The data source names, [fmt.Sprintf] written out ([%s] of a string is
    the string, [%d] of an int its decimal text). *)
Definition mysql_dsn (username password host : string) (port : Z)
    (database charset : string) : string :=
  username +:+ ":" +:+ password +:+ "@tcp(" +:+ host +:+ ":" +:+ pretty port
    +:+ ")/" +:+ database +:+ "?charset=" +:+ charset
    +:+ "&autocommit=true&parseTime=True".

Definition mssql_dsn (host username password : string) (port : Z)
    (database : string) : string :=
  "server=" +:+ host +:+ ";user id=" +:+ username +:+ ";password=" +:+ password
    +:+ ";port=" +:+ pretty port +:+ ";database=" +:+ database.

Definition unsupported (driver : string) : error :=
  errorString ("unsupport db driver: " +:+ driver).

(** The tail shared by both factories, from [sql.Open] on. *)
Definition open_store (driver dsn : string) : M (option loc * option error) :=
  r ← sql_call (sql_Open driver dsn);
  match rep_err r with
  | Some err => mret (None, Some err)
  | None =>
      p ← new_store (mkDBStore (Some (rep_val r)) false 0);
      mret (Some p, None)
  end.

(** [func NewDBStore(driver, host string, port int, database, username,
    password string)] *)
Definition NewDBStore (driver host : string) (port : Z)
    (database username password : string) : M (option loc * option error) :=
  let lower := strings_ToLower driver in
  if String.eqb lower "mysql" then
    open_store driver (mysql_dsn username password host port database "utf8mb4")
  else if String.eqb lower "mssql" then
    open_store driver (mssql_dsn host username password port database)
  else
    mret (None, Some (unsupported driver)).

(** [func NewDBStoreCharset(...)]: as [NewDBStore], with the character set
    of the MySQL data source name given, [utf8] when empty. *)
Definition NewDBStoreCharset (driver host : string) (port : Z)
    (database username password charset : string)
  : M (option loc * option error) :=
  let lower := strings_ToLower driver in
  if String.eqb lower "mysql" then
    let charset := if String.eqb charset EmptyString then "utf8" else charset in
    open_store driver (mysql_dsn username password host port database charset)
  else if String.eqb lower "mssql" then
    open_store driver (mssql_dsn host username password port database)
  else
    mret (None, Some (unsupported driver)).

End Factory.

(** ** Units of work *)

(** What a caller does with a transaction, and what happens to its contexts
    meanwhile: a context is cancelled, or its deadline passes. *)
Inductive Step :=
  | CallQuery (sql : string) (args : list Arg)
  | CallExec (sql : string) (args : list Arg)
  | CallSetError (err : option error)
  | CallSetContext (ctx : Context)
  | CallClose
  | CtxCancel (c : ctx_ref)
  | CtxDeadline (c : ctx_ref).

(** A context is done once and for all, with its first cause. *)
Definition ctx_finish (c : ctx_ref) (err : error) : M unit :=
  λ w, match w_done w !! c with
       | Some _ => (Ret tt, w)
       | None => (Ret tt, set_done (<[c := err]> (w_done w)) w)
       end.

(** One step on the transaction [tx]; the result is the error the call
    returned ([None] for the steps that return nothing). *)
Definition run_step (tx : loc) (s : Step) : M (option error) :=
  match s with
  | CallQuery sql args => r ← DBTx_Query tx sql args; mret r.2
  | CallExec sql args => r ← DBTx_Exec tx sql args; mret r.2
  | CallSetError err => DBTx_SetError tx err;; mret None
  | CallSetContext ctx => DBTx_SetContext tx ctx;; mret None
  | CallClose => DBTx_Close tx
  | CtxCancel c => ctx_finish c context_Canceled;; mret None
  | CtxDeadline c => ctx_finish c context_DeadlineExceeded;; mret None
  end.

Fixpoint run (tx : loc) (steps : list Step) : M (list (option error)) :=
  match steps with
  | [] => mret []
  | s :: steps' =>
      e ← run_step tx s;
      es ← run tx steps';
      mret (e :: es)
  end.

(** The error a step records in [tx.err], given the error it returned:
    [Some e] when the step assigns [e] (which may be nil), [None] when it
    does not assign. *)
Definition recorded (s : Step) (returned : option error) : option (option error) :=
  match s with
  | CallQuery _ _ | CallExec _ _ => Some returned
  | CallSetError err => Some err
  | _ => None
  end.

(** ** Sample worlds *)

(** [database/sql] on a healthy server: every call succeeds, the value
    returned is the number of the call; except that, as the [database/sql]
    documentation has it, a transaction that was committed or rolled back
    answers [ErrTxDone]. *)
Definition is_terminal_on (h : handle) (c : SqlCall) : bool :=
  match c with
  | Tx_Commit h' | Tx_Rollback h' => bool_decide (h = h')
  | _ => false
  end.

Definition tx_of (c : SqlCall) : option handle :=
  match c with
  | Tx_Query h _ _ | Tx_QueryContext h _ _ _ | Tx_Exec h _ _
  | Tx_ExecContext h _ _ _ | Tx_Commit h | Tx_Rollback h => Some h
  | _ => None
  end.

Definition healthy_sql (history : list SqlCall) (c : SqlCall) : Reply :=
  match tx_of c with
  | Some h =>
      if existsb (is_terminal_on h) history
      then mkReply 0 (Some sql_ErrTxDone)
      else mkReply (length history) None
  | None => mkReply (length history) None
  end.

(** The same server, except that the call number [n] (counting from 0) fails. *)
Definition driver_error : error := errorString "Error 1062: Duplicate entry".

Definition failing_at (n : nat) (history : list SqlCall) (c : SqlCall) : Reply :=
  if bool_decide (length history = n)
  then mkReply 0 (Some driver_error)
  else healthy_sql history c.

(** A clock that advances by [d] nanoseconds between two readings. *)
Definition steady_clock (d : Z) (n : nat) : Z := d * Z.of_nat n.

(** A whole unit of work on the store [store]: begin, the steps, close. *)
Definition unit_of_work (store : loc) (ctx : Context) (steps : list Step)
  : M (list (option error) * option error) :=
  '(tx, err) ← DBStore_BeginTx store ctx;
  match tx with
  | Some p => rs ← run p steps; e ← DBTx_Close p; mret (rs, e)
  | None => mret ([], err)
  end.

(** A world with one open store at location 0, over the [database/sql]
    handle 0, with the given slow-query threshold. *)
Definition open_world (clock : nat → Z) (sql : list SqlCall → SqlCall → Reply)
    (slowlog : Duration) : World :=
  mkWorld clock 0 sql [] ∅ [] [] {[ 0%nat := mkDBStore (Some 0%nat) false slowlog ]} ∅.

(** The same world after [BeginTx] handed out the transaction at location 0,
    bound to [ctx]. *)
Definition tx_world (clock : nat → Z) (sql : list SqlCall → SqlCall → Reply)
    (slowlog : Duration) (ctx : Context) : World :=
  (DBStore_BeginTx 0%nat ctx (open_world clock sql slowlog)).2.

(** Sample statements and sample runs. *)
Definition sample_insert : Step := CallExec "INSERT INTO users" [].
Definition sample_select : Step := CallQuery "SELECT 1" [].

(** The first statement of the unit of work fails, the second succeeds. *)
Definition overwritten_world : World :=
  open_world (steady_clock 1) (failing_at 1) 0.
Definition overwritten_steps : list Step := [sample_insert; sample_select].

(** The last statement of the unit of work fails. *)
Definition last_fails_world : World :=
  tx_world (steady_clock 1) (failing_at 2) 0 None.
Definition last_fails_end : World :=
  (run 0%nat ([sample_select] ++ [sample_insert]) last_fails_world).2.

(** Every statement succeeds, under the live context 5. *)
Definition clean_begin : World := open_world (steady_clock 1) healthy_sql 0.
Definition clean_world : World :=
  tx_world (steady_clock 1) healthy_sql 0 (Some 5%nat).
Definition clean_steps : list Step :=
  [sample_insert; sample_select; CallSetError None].
Definition clean_end : World := (run 0%nat clean_steps clean_world).2.
Definition clean_tx : DBTx := mkDBTx 0%nat false 0 None 0 (Some 5%nat).

(** Every statement succeeds, and the context 5 is cancelled before close. *)
Definition cancelled_steps : list Step :=
  [sample_insert; CtxCancel 5%nat; sample_select].
Definition cancelled_end : World := (run 0%nat cancelled_steps clean_world).2.

(** The store of [clean_begin], closed once. *)
Definition closed_world : World := (DBStore_Close 0%nat clean_begin).2.

(** A transaction that is closed twice, queried, and closed again. *)
Definition reuse_steps : list Step :=
  [CallClose; CallClose; sample_select; CallClose].

(** The traced transaction of [clean_world]. *)
Definition traced_tx : DB := OpenTrace (Some 5%nat) (DBTx_DB 0%nat).

(** A store and a transaction with a threshold of 50ns, under a clock that
    advances by 80ns per reading. *)
Definition slow_world : World := tx_world (steady_clock 80) healthy_sql 50 None.
Definition slow_store : DBStore := mkDBStore (Some 0%nat) false 50.
Definition slow_tx : DBTx := mkDBTx 0%nat false 50 None 0 None.

(** A Unicode table that is never consulted on ASCII input. *)
Definition no_unicode (s : string) : string := s.

(** ** Vocabulary of the statements *)

Definition debug_lines (debug : bool) (sql : string) (args : list Arg)
  : list LogLine :=
  if debug then [DEBUG sql args] else [].

Definition slow_lines (slowlog span : Duration) (sql : string) (args : list Arg)
  : list LogLine :=
  if (0 <? slowlog) && (slowlog <? span) then [SLOW span sql args] else [].

(** The duration a query or exec measures when it starts in [w]: the next two
    readings of the clock, subtracted. *)
Definition measured (w : World) : Duration :=
  time_Sub (w_clock w (S (w_tick w))) (w_clock w (w_tick w)).

(** The clock is read once, and once more when the slow log is on. *)
Definition ticks (slowlog : Duration) (n : nat) : nat :=
  if 0 <? slowlog then S (S n) else S n.

Definition with_err (t : DBTx) (err : option error) : DBTx :=
  mkDBTx (tx_tx t) (tx_debug t) (tx_slowlog t) err (tx_rowsAffected t) (tx_Ctx t).

Definition with_Ctx (t : DBTx) (ctx : Context) : DBTx :=
  mkDBTx (tx_tx t) (tx_debug t) (tx_slowlog t) (tx_err t) (tx_rowsAffected t) ctx.

Definition query_call (t : DBTx) (sql : string) (args : list Arg) : SqlCall :=
  match tx_Ctx t with
  | Some c => Tx_QueryContext (tx_tx t) c sql args
  | None => Tx_Query (tx_tx t) sql args
  end.

Definition exec_call (t : DBTx) (sql : string) (args : list Arg) : SqlCall :=
  match tx_Ctx t with
  | Some c => Tx_ExecContext (tx_tx t) c sql args
  | None => Tx_Exec (tx_tx t) sql args
  end.

(** The error of the attached context, if that context is done. *)
Definition ctx_error (t : DBTx) (w : World) : option error :=
  match tx_Ctx t with
  | Some c => w_done w !! c
  | None => None
  end.

(** The error [Close] decides on: that of a done context, else the recorded one. *)
Definition close_err (t : DBTx) (w : World) : option error :=
  match ctx_error t w with
  | Some e => Some e
  | None => tx_err t
  end.

Definition close_call (t : DBTx) (w : World) : SqlCall :=
  match close_err t w with
  | Some _ => Tx_Rollback (tx_tx t)
  | None => Tx_Commit (tx_tx t)
  end.

(** The log lines and the calls to [database/sql] added between two worlds. *)
Definition new_log (w w' : World) : list LogLine :=
  drop (length (w_log w)) (w_log w').
Definition new_calls (w w' : World) : list SqlCall :=
  drop (length (w_calls w)) (w_calls w').

Definition slow_fires (w w' : World) : Prop :=
  ∃ span sql args, SLOW span sql args ∈ new_log w w'.


(** What the decorator asks of the tracer before it forwards a call, and after
    the call came back with [r]. *)
Definition span_opened (s : Span) (operationName : string) (ctx : Context)
    (sql : string) (args : list Arg) : list SpanEvent :=
  [SpanStart s operationName ctx; SpanLogString s "sql.query" sql args].

Definition span_closed {A} (s : Span) (r : Res (A * option error))
  : list SpanEvent :=
  match r with
  | Ret (_, Some e) => [SpanTagError s; SpanLogError s e; SpanFinish s]
  | _ => [SpanFinish s]
  end.

Definition emit (evs : list SpanEvent) (w : World) : World :=
  set_spans (w_spans w ++ evs) w.

(** The decorator in the words of the specification: open a span and tag it
    with the statement, forward the call unchanged, on an error mark the span
    and attach the error, close the span, and hand back what the wrapped
    executor returned. *)
Definition decorated {A} (operationName : string) (ctx : Context)
    (sql : string) (args : list Arg) (forward : M (A * option error))
  : M (A * option error) :=
  λ w, let s := length (w_spans w) in
       let (r, w') := forward (emit (span_opened s operationName ctx sql args) w) in
       (r, emit (span_closed s r) w').


(** The traced call returns what the direct call returns, and differs from it
    in the tracer alone, which receives the opened and the closed span. *)
Definition preserved {A} (operationName : string) (ctx : Context)
    (sql : string) (args : list Arg) (direct traced : M (A * option error))
    (w : World) : Prop :=
  traced w
  = (let (r, w') := direct w in
     (r, set_spans (w_spans w
                    ++ span_opened (length (w_spans w)) operationName ctx sql args
                    ++ span_closed (length (w_spans w)) r) w')).

(** A computation that neither reads nor writes the tracer. *)
Definition tracer_free {A} (m : M A) : Prop :=
  ∀ w sp, m (set_spans sp w) = let (r, w') := m w in (r, set_spans sp w').

(** The letter-case variants of a lower-case ASCII word. *)
Definition any_case_of (word driver : string) : Prop :=
  map_bytes lower_byte driver = word.

(** What the methods of a store hand to [database/sql], and get back. *)
Definition store_calls (s : DBStore) (c : handle → SqlCall) : list SqlCall :=
  match store_DB s with
  | Some h => [c h]
  | None => []
  end.

Definition store_result (s : DBStore) (c : handle → SqlCall) (w : World)
  : Res (nat * option error) :=
  match store_DB s with
  | Some h => let r := w_sql w (w_calls w) (c h) in Ret (rep_val r, rep_err r)
  | None => Panic nil_deref
  end.

(** The effect of a step on the transaction object and on the contexts. *)
Definition step_tx (s : Step) (returned : option error) (w : World) (t : DBTx)
  : DBTx :=
  match s with
  | CallQuery _ _ | CallExec _ _ => with_err t returned
  | CallSetError err => with_err t err
  | CallSetContext ctx => with_Ctx t ctx
  | CallClose =>
      match ctx_error t w with
      | Some e => with_err t (Some e)
      | None => t
      end
  | CtxCancel _ | CtxDeadline _ => t
  end.

Definition finish (c : ctx_ref) (err : error) (d : gmap ctx_ref error)
  : gmap ctx_ref error :=
  match d !! c with
  | Some _ => d
  | None => <[c := err]> d
  end.

Definition step_done (s : Step) (d : gmap ctx_ref error) : gmap ctx_ref error :=
  match s with
  | CtxCancel c => finish c context_Canceled d
  | CtxDeadline c => finish c context_DeadlineExceeded d
  | _ => d
  end.

(** ** The rest of the transaction executor *)

(** The later revision of [db.go] kept with the sources (there the context
    field is spelled [ctx]) gives the transaction two more methods:
    [func (tx *DBTx) GetContext() context.Context], which returns the context
    field, and [func (tx *DBTx) BeginTx(ctx context.Context) (TX, error)],
    which returns the transaction itself and a nil error. *)
Definition DBTx_GetContext (tx : loc) : M Context :=
  t ← load_tx tx;
  mret (tx_Ctx t).

Definition DBTx_BeginTx (tx : loc) (ctx : Context) : M (option loc * option error) :=
  mret (Some tx, None).

(** ** More vocabulary *)

Definition new_spans (w w' : World) : list SpanEvent :=
  drop (length (w_spans w)) (w_spans w').

Definition debug_fires (w w' : World) : Prop :=
  ∃ sql args, DEBUG sql args ∈ new_log w w'.

(** How a factory call that started in [w] can end: with a store at a
    location that was free, holding a handle, debug off and a zero threshold,
    and no error; or with an error, no store, and the heap as it was. *)
Definition factory_outcome (w : World) (r : option loc * option error)
    (w' : World) : Prop :=
  (∃ p h, r = (Some p, None)
          ∧ w_stores w !! p = None
          ∧ w_stores w' = <[p := mkDBStore (Some h) false 0]> (w_stores w))
  ∨ (∃ e, r = (None, Some e) ∧ w_stores w' = w_stores w).

(** How [BeginTx] on an open store can end: with a transaction and no error,
    or with an error, no transaction, and the transactions as they were. *)
Definition begin_outcome (w : World) (r : option loc * option error)
    (w' : World) : Prop :=
  (∃ p, r = (Some p, None) ∧ w_txs w !! p = None ∧ is_Some (w_txs w' !! p))
  ∨ (∃ e, r = (None, Some e) ∧ w_txs w' = w_txs w).

(** The span [s] of a traced call that ended in [w'] with [r] carries the
    error tag and the error exactly when the call returned an error. *)
Definition error_tagged {A} (s : Span) (w w' : World)
    (r : Res (A * option error)) : Prop :=
  (SpanTagError s ∈ new_spans w w' ↔ ∃ v e, r = Ret (v, Some e))
  ∧ (∀ e, SpanLogError s e ∈ new_spans w w' ↔ ∃ v, r = Ret (v, Some e))
  ∧ SpanFinish s ∈ new_spans w w'.

(** A traced call around a traced call: what the direct call returns, and in
    the tracer the inner span inside the outer one. *)
Definition stacked {A} (operationName : string) (outer inner : Context)
    (sql : string) (args : list Arg) (direct traced : M (A * option error))
    (w : World) : Prop :=
  traced w
  = (let (r, w') := direct w in
     (r, set_spans
           (w_spans w
            ++ span_opened (length (w_spans w)) operationName outer sql args
            ++ span_opened (S (S (length (w_spans w)))) operationName inner sql args
            ++ span_closed (S (S (length (w_spans w)))) r
            ++ span_closed (length (w_spans w)) r) w')).

(** A store whose [Close] fails. *)
Definition failing_close_world : World :=
  open_world (steady_clock 1) (failing_at 0) 0.
Definition failing_close_end : World :=
  (DBStore_Close 0%nat failing_close_world).2.

(** The transaction record of [last_fails_end]. *)
Definition doomed_tx : DBTx := mkDBTx 0%nat false 0 (Some driver_error) 0 None.

(** * Proofs *)

(** ** Running the methods *)

Ltac mred :=
  cbv beta iota zeta delta
      [mbind mret M_bind M_ret bind ret panic defer when id
       time_Now log_Println sql_call ctx_Done ctx_Err
       load_store save_store load_tx save_tx tx_set_err sqlDB_call
       StartSpanFromContext span_emit logErrorToSpan
       set_tick set_calls set_done set_log set_spans set_stores set_txs
       w_clock w_tick w_sql w_calls w_done w_log w_spans w_stores w_txs
       tx_tx tx_debug tx_slowlog tx_err tx_rowsAffected tx_Ctx
       store_DB store_debug store_slowlog rep_val rep_err fst snd].

Ltac mrun :=
  repeat first
    [ progress mred
    | rewrite lookup_insert_eq
    | match goal with
      | H : ?m !! ?p = _ |- context [?m !! ?p] => rewrite H
      end ].

Ltac lists := rewrite ?app_nil_r, <- ?app_assoc; try reflexivity.

Lemma DBTx_Query_run tx t sql args w :
  w_txs w !! tx = Some t →
  let r := w_sql w (w_calls w) (query_call t sql args) in
  DBTx_Query tx sql args w =
    (Ret (rep_val r, rep_err r),
     mkWorld (w_clock w) (ticks (tx_slowlog t) (w_tick w)) (w_sql w)
             (w_calls w ++ [query_call t sql args]) (w_done w)
             (w_log w ++ debug_lines (tx_debug t) sql args
                    ++ slow_lines (tx_slowlog t) (measured w) sql args)
             (w_spans w) (w_stores w)
             (<[tx := with_err t (rep_err r)]> (w_txs w))).
Proof.
  intros H r. subst r.
  destruct w as [clk tick sq calls dn lg sp st txs]; simpl in H.
  destruct t as [h dbg slow err ra ctx].
  unfold DBTx_Query, query_call, ticks, slow_lines, debug_lines, measured, with_err.
  mrun.
  destruct (0 <? slow); destruct dbg; destruct ctx as [c|]; mrun;
    try destruct (slow <? _); mrun; lists.
Qed.

Lemma DBTx_Exec_run tx t sql args w :
  w_txs w !! tx = Some t →
  let r := w_sql w (w_calls w) (exec_call t sql args) in
  DBTx_Exec tx sql args w =
    (Ret (rep_val r, rep_err r),
     mkWorld (w_clock w) (ticks (tx_slowlog t) (w_tick w)) (w_sql w)
             (w_calls w ++ [exec_call t sql args]) (w_done w)
             (w_log w ++ debug_lines (tx_debug t) sql args
                    ++ slow_lines (tx_slowlog t) (measured w) sql args)
             (w_spans w) (w_stores w)
             (<[tx := with_err t (rep_err r)]> (w_txs w))).
Proof.
  intros H r. subst r.
  destruct w as [clk tick sq calls dn lg sp st txs]; simpl in H.
  destruct t as [h dbg slow err ra ctx].
  unfold DBTx_Exec, exec_call, ticks, slow_lines, debug_lines, measured, with_err.
  mrun.
  destruct (0 <? slow); destruct dbg; destruct ctx as [c|]; mrun;
    try destruct (slow <? _); mrun; lists.
Qed.

Lemma DBTx_SetError_run tx t err w :
  w_txs w !! tx = Some t →
  DBTx_SetError tx err w = (Ret tt, set_txs (<[tx := with_err t err]> (w_txs w)) w).
Proof.
  intros H. destruct w; simpl in H. destruct t.
  unfold DBTx_SetError, with_err. mrun. reflexivity.
Qed.

Lemma DBTx_SetContext_run tx t ctx w :
  w_txs w !! tx = Some t →
  DBTx_SetContext tx ctx w = (Ret tt, set_txs (<[tx := with_Ctx t ctx]> (w_txs w)) w).
Proof.
  intros H. destruct w; simpl in H. destruct t.
  unfold DBTx_SetContext, with_Ctx. mrun. reflexivity.
Qed.

Lemma DBTx_Close_run tx t w :
  w_txs w !! tx = Some t →
  DBTx_Close tx w =
    (Ret (rep_err (w_sql w (w_calls w) (close_call t w))),
     set_calls (w_calls w ++ [close_call t w])
       (set_txs (match ctx_error t w with
                 | Some e => <[tx := with_err t (Some e)]> (w_txs w)
                 | None => w_txs w
                 end) w)).
Proof.
  intros H.
  destruct w as [clk tick sq calls dn lg sp st txs]; simpl in H.
  destruct t as [h dbg slow err ra ctx].
  unfold DBTx_Close, close_call, close_err, ctx_error, with_err.
  destruct ctx as [c|]; mrun.
  - destruct (dn !! c) as [e|] eqn:Hc; mrun.
    + rewrite bool_decide_eq_true_2 by eauto. mrun. reflexivity.
    + rewrite bool_decide_eq_false_2 by (intros [? ?]; discriminate).
      mrun. destruct err; reflexivity.
  - destruct err; reflexivity.
Qed.

Lemma DBStore_Query_run store s sql args w :
  w_stores w !! store = Some s →
  DBStore_Query store sql args w =
    (store_result s (λ h, DB_Query h sql args) w,
     mkWorld (w_clock w) (ticks (store_slowlog s) (w_tick w)) (w_sql w)
             (w_calls w ++ store_calls s (λ h, DB_Query h sql args)) (w_done w)
             (w_log w ++ debug_lines (store_debug s) sql args
                    ++ slow_lines (store_slowlog s) (measured w) sql args)
             (w_spans w) (w_stores w) (w_txs w)).
Proof.
  intros H.
  destruct w as [clk tick sq calls dn lg sp st txs]; simpl in H.
  destruct s as [db dbg slow].
  unfold DBStore_Query, store_result, store_calls, ticks, slow_lines,
    debug_lines, measured.
  mrun.
  destruct (0 <? slow); destruct dbg; destruct db as [h|]; mrun;
    try destruct (slow <? _); mrun; lists.
Qed.

Lemma DBStore_Exec_run store s sql args w :
  w_stores w !! store = Some s →
  DBStore_Exec store sql args w =
    (store_result s (λ h, DB_Exec h sql args) w,
     mkWorld (w_clock w) (ticks (store_slowlog s) (w_tick w)) (w_sql w)
             (w_calls w ++ store_calls s (λ h, DB_Exec h sql args)) (w_done w)
             (w_log w ++ debug_lines (store_debug s) sql args
                    ++ slow_lines (store_slowlog s) (measured w) sql args)
             (w_spans w) (w_stores w) (w_txs w)).
Proof.
  intros H.
  destruct w as [clk tick sq calls dn lg sp st txs]; simpl in H.
  destruct s as [db dbg slow].
  unfold DBStore_Exec, store_result, store_calls, ticks, slow_lines,
    debug_lines, measured.
  mrun.
  destruct (0 <? slow); destruct dbg; destruct db as [h|]; mrun;
    try destruct (slow <? _); mrun; lists.
Qed.

Lemma DBStore_Close_run store s w :
  w_stores w !! store = Some s →
  DBStore_Close store w =
    match store_DB s with
    | None => (Panic nil_deref, w)
    | Some h =>
        match rep_err (w_sql w (w_calls w) (DB_Close h)) with
        | Some err => (Ret (Some err), set_calls (w_calls w ++ [DB_Close h]) w)
        | None =>
            (Ret None,
             set_calls (w_calls w ++ [DB_Close h])
               (set_stores
                  (<[store := mkDBStore None (store_debug s) (store_slowlog s)]>
                     (w_stores w)) w))
        end
    end.
Proof.
  intros H.
  destruct w as [clk tick sq calls dn lg sp st txs]; simpl in H.
  destruct s as [db dbg slow].
  unfold DBStore_Close. mrun.
  destruct db as [h|]; mrun; [|reflexivity].
  destruct (sq calls (DB_Close h)) as [v [e|]]; mrun; reflexivity.
Qed.

Lemma DBStore_Close_unallocated store w :
  w_stores w !! store = None →
  DBStore_Close store w = (Panic nil_deref, w).
Proof.
  intros H. destruct w; simpl in H. unfold DBStore_Close. mrun. reflexivity.
Qed.

(** A transaction handed out by [BeginTx] is a new object with no recorded
    error and a zero affected-row count, bound to the given context. *)
Lemma DBStore_BeginTx_ok store ctx w p w1 :
  DBStore_BeginTx store ctx w = (Ret (Some p, None), w1) →
  ∃ t, w_txs w1 !! p = Some t ∧ tx_err t = None ∧ tx_rowsAffected t = 0
       ∧ tx_Ctx t = ctx.
Proof.
  destruct w as [clk tick sq calls dn lg sp st txs].
  unfold DBStore_BeginTx. mrun.
  destruct (st !! store) as [[db dbg slow]|] eqn:Hs; mrun; [|discriminate].
  destruct db as [h|]; mrun; [|discriminate].
  destruct (sq calls (DB_Begin h)) as [v [e|]]; mrun; [discriminate|].
  unfold new_tx. mrun.
  intros [= <- <-]. mrun. eexists. split; [reflexivity|]. done.
Qed.

(** ** Steps of a unit of work *)

Lemma ctx_finish_run c err w :
  ctx_finish c err w = (Ret tt, set_done (finish c err (w_done w)) w).
Proof.
  unfold ctx_finish, finish. destruct (w_done w !! c); [|reflexivity].
  by destruct w.
Qed.

Lemma run_step_ok tx s t w :
  w_txs w !! tx = Some t →
  ∃ r w', run_step tx s w = (Ret r, w')
          ∧ w_txs w' !! tx = Some (step_tx s r w t)
          ∧ w_done w' = step_done s (w_done w)
          ∧ w_sql w' = w_sql w.
Proof.
  intros H. destruct s as [sql args|sql args|err|ctx| |c|c];
    unfold run_step, mbind, mret, M_bind, M_ret, bind, ret.
  - rewrite (DBTx_Query_run _ _ _ _ _ H). do 2 eexists.
    split; [reflexivity|]. cbn. by rewrite lookup_insert_eq.
  - rewrite (DBTx_Exec_run _ _ _ _ _ H). do 2 eexists.
    split; [reflexivity|]. cbn. by rewrite lookup_insert_eq.
  - rewrite (DBTx_SetError_run _ _ _ _ H). do 2 eexists.
    split; [reflexivity|]. cbn. by rewrite lookup_insert_eq.
  - rewrite (DBTx_SetContext_run _ _ _ _ H). do 2 eexists.
    split; [reflexivity|]. cbn. by rewrite lookup_insert_eq.
  - rewrite (DBTx_Close_run _ _ _ H). do 2 eexists.
    split; [reflexivity|]. cbn.
    destruct (ctx_error t w); by rewrite ?lookup_insert_eq.
  - rewrite ctx_finish_run. do 2 eexists. split; [reflexivity|]. by cbn.
  - rewrite ctx_finish_run. do 2 eexists. split; [reflexivity|]. by cbn.
Qed.

Lemma step_tx_frame s r w t :
  tx_tx (step_tx s r w t) = tx_tx t
  ∧ tx_rowsAffected (step_tx s r w t) = tx_rowsAffected t.
Proof. destruct s; cbn; try done. by destruct (ctx_error t w). Qed.

Lemma step_tx_recorded s r w t x :
  recorded s r = Some x → tx_err (step_tx s r w t) = x.
Proof. destruct s; cbn; congruence. Qed.

Lemma step_tx_not_recorded s r w t :
  recorded s r = None → s ≠ CallClose →
  tx_err (step_tx s r w t) = tx_err t.
Proof. destruct s; cbn; congruence. Qed.

Lemma finish_mono c err d c' e :
  d !! c' = Some e → finish c err d !! c' = Some e.
Proof.
  intros H. unfold finish. destruct (d !! c) eqn:Hc; [done|].
  rewrite lookup_insert_ne; [done|]. intros ->. congruence.
Qed.

Lemma finish_done c err d : is_Some (finish c err d !! c).
Proof.
  unfold finish. destruct (d !! c) eqn:Hc; [by rewrite Hc|].
  rewrite lookup_insert_eq. eauto.
Qed.

Lemma step_done_mono s d c e :
  d !! c = Some e → step_done s d !! c = Some e.
Proof. destruct s; cbn; auto using finish_mono. Qed.

(** A sequence of steps on an allocated transaction runs to its end, and
    leaves the transaction allocated with the same handle and the same
    affected-row count. *)
Lemma run_ok tx steps : ∀ t w,
  w_txs w !! tx = Some t →
  ∃ results w' t',
    run tx steps w = (Ret results, w')
    ∧ w_txs w' !! tx = Some t'
    ∧ tx_tx t' = tx_tx t
    ∧ tx_rowsAffected t' = tx_rowsAffected t
    ∧ length results = length steps.
Proof.
  induction steps as [|s steps IH]; intros t w H.
  - exists [], w, t. done.
  - destruct (run_step_ok tx s t w H) as (r & w1 & Hr & Ht & _).
    destruct (IH _ _ Ht) as (rs & w2 & t2 & Hrs & Ht2 & Hh & Hra & Hlen).
    destruct (step_tx_frame s r w t) as [Hh1 Hra1].
    exists (r :: rs), w2, t2.
    split; [|repeat split; [done|congruence|congruence|by cbn; f_equal]].
    cbn [run]. unfold mbind, M_bind, bind. rewrite Hr, Hrs. reflexivity.
Qed.

Lemma run_cons tx s steps w r w1 rs w2 :
  run_step tx s w = (Ret r, w1) →
  run tx steps w1 = (Ret rs, w2) →
  run tx (s :: steps) w = (Ret (r :: rs), w2).
Proof.
  intros Hr Hrs. cbn [run]. unfold mbind, M_bind, bind.
  rewrite Hr, Hrs. reflexivity.
Qed.

Lemma run_cons_inv tx s steps w results w2 :
  run tx (s :: steps) w = (Ret results, w2) →
  ∃ r w1 rs, run_step tx s w = (Ret r, w1)
             ∧ run tx steps w1 = (Ret rs, w2)
             ∧ results = r :: rs.
Proof.
  cbn [run]. unfold mbind, mret, M_bind, M_ret, bind, ret.
  destruct (run_step tx s w) as [[r|msg] w1]; [|discriminate].
  destruct (run tx steps w1) as [[rs|msg] w2'] eqn:Hrs; [|discriminate].
  intros [= <- <-]. by exists r, w1, rs.
Qed.

Lemma run_app tx steps1 : ∀ steps2 w rs1 w1 rs2 w2,
  run tx steps1 w = (Ret rs1, w1) →
  run tx steps2 w1 = (Ret rs2, w2) →
  run tx (steps1 ++ steps2) w = (Ret (rs1 ++ rs2), w2).
Proof.
  induction steps1 as [|s steps1 IH]; intros steps2 w rs1 w1 rs2 w2 H1 H2.
  - cbn in H1. injection H1 as <- <-. done.
  - apply run_cons_inv in H1 as (r & wa & rs & Hr & Hrs & ->).
    cbn [app]. eapply run_cons; eauto.
Qed.

(** Contexts stay done along a run, and a cancelled or expired context is
    done from then on. *)
Lemma run_done_mono tx steps : ∀ w results w' c e,
  run tx steps w = (Ret results, w') →
  (∃ t, w_txs w !! tx = Some t) →
  w_done w !! c = Some e → w_done w' !! c = Some e.
Proof.
  induction steps as [|s steps IH]; intros w results w' c e H [t Ht] Hd.
  - cbn in H. by injection H as <- <-.
  - apply run_cons_inv in H as (r & w1 & rs & Hr & Hrs & ->).
    destruct (run_step_ok tx s t w Ht) as (r' & w1' & Hr' & Ht' & Hd' & _).
    rewrite Hr in Hr'. injection Hr' as <- <-.
    eapply IH; eauto. rewrite Hd'. by apply step_done_mono.
Qed.

Lemma run_done_cancel tx steps : ∀ w results w' c,
  run tx steps w = (Ret results, w') →
  (∃ t, w_txs w !! tx = Some t) →
  CtxCancel c ∈ steps ∨ CtxDeadline c ∈ steps →
  is_Some (w_done w' !! c).
Proof.
  induction steps as [|s steps IH]; intros w results w' c H [t Ht] Hin.
  - destruct Hin as [Hin|Hin]; by apply elem_of_nil in Hin.
  - apply run_cons_inv in H as (r & w1 & rs & Hr & Hrs & ->).
    destruct (run_step_ok tx s t w Ht) as (r' & w1' & Hr' & Ht' & Hd' & _).
    rewrite Hr in Hr'. injection Hr' as <- <-.
    assert (s = CtxCancel c ∨ s = CtxDeadline c
            ∨ (CtxCancel c ∈ steps ∨ CtxDeadline c ∈ steps)) as Hc.
    { destruct Hin as [Hin|Hin]; apply elem_of_cons in Hin as [->|Hin]; auto. }
    destruct Hc as [->|[->|Hc]].
    + destruct (finish_done c context_Canceled (w_done w)) as [e He].
      exists e. eapply run_done_mono; eauto. rewrite Hd'. exact He.
    + destruct (finish_done c context_DeadlineExceeded (w_done w)) as [e He].
      exists e. eapply run_done_mono; eauto. rewrite Hd'. exact He.
    + eapply IH; eauto.
Qed.

(** ** The commit-or-rollback decision *)

Lemma close_call_rollback t w :
  is_Some (close_err t w) → close_call t w = Tx_Rollback (tx_tx t).
Proof. intros [e He]. unfold close_call. by rewrite He. Qed.

Lemma close_call_commit t w :
  close_err t w = None → close_call t w = Tx_Commit (tx_tx t).
Proof. intros He. unfold close_call. by rewrite He. Qed.

Lemma close_err_recorded t w e : tx_err t = Some e → is_Some (close_err t w).
Proof.
  intros He. unfold close_err. destruct (ctx_error t w); [eauto|].
  rewrite He. eauto.
Qed.

Lemma DBTx_Close_calls tx t w :
  w_txs w !! tx = Some t →
  ∃ err w', DBTx_Close tx w = (Ret err, w')
            ∧ w_calls w' = w_calls w ++ [close_call t w].
Proof.
  intros H. rewrite (DBTx_Close_run _ _ _ H). do 2 eexists.
  split; [reflexivity|]. reflexivity.
Qed.

(** Steps that record no error leave a transaction without a recorded error. *)
Lemma run_clean tx steps : ∀ w results w' t,
  run tx steps w = (Ret results, w') →
  w_txs w !! tx = Some t →
  tx_err t = None →
  Forall (λ s, s ≠ CallClose) steps →
  Forall2 (λ s r, ∀ e, recorded s r ≠ Some (Some e)) steps results →
  ∃ t', w_txs w' !! tx = Some t' ∧ tx_err t' = None.
Proof.
  induction steps as [|s steps IH]; intros w results w' t H Ht He Hnc Hrec.
  - cbn in H. injection H as <- <-. eauto.
  - apply run_cons_inv in H as (r & w1 & rs & Hr & Hrs & ->).
    destruct (run_step_ok tx s t w Ht) as (r' & w1' & Hr' & Ht' & _).
    rewrite Hr in Hr'. injection Hr' as <- <-.
    apply Forall_cons in Hnc as [Hs Hnc].
    apply Forall2_cons in Hrec as [Hsr Hrec].
    eapply IH; eauto.
    destruct (recorded s r) as [[e|]|] eqn:Hx.
    + by destruct (Hsr e).
    + by apply step_tx_recorded.
    + rewrite step_tx_not_recorded; auto.
Qed.

(** C1, as the code has it: the error that counts at close is the one the
    last query, exec or set-error call recorded.  Whatever came before, if
    the last call of a sequence records a non-nil error, [Close] issues a
    rollback.  (An error recorded earlier is overwritten by a later call that
    succeeds, see [DBTx_Close_commits_after_overwritten_error].) *)
Theorem DBTx_Close_rolls_back_on_last_error tx steps s w :
  is_Some (w_txs w !! tx) →
  ∃ results r w',
    run tx (steps ++ [s]) w = (Ret (results ++ [r]), w')
    ∧ ∀ e, recorded s r = Some (Some e) →
        ∃ t err w'',
          w_txs w' !! tx = Some t
          ∧ DBTx_Close tx w' = (Ret err, w'')
          ∧ w_calls w'' = w_calls w' ++ [Tx_Rollback (tx_tx t)].
Proof.
  intros [t Ht].
  destruct (run_ok tx steps t w Ht) as (rs & w1 & t1 & Hrs & Ht1 & _).
  destruct (run_step_ok tx s t1 w1 Ht1) as (r & w2 & Hr & Ht2 & _).
  exists rs, r, w2. split.
  - eapply run_app; [exact Hrs|]. eapply run_cons; [exact Hr|reflexivity].
  - intros e He.
    destruct (DBTx_Close_calls tx _ w2 Ht2) as (err & w3 & Hc & Hcalls).
    exists (step_tx s r w1 t1), err, w3. repeat split; [done..|].
    rewrite Hcalls, close_call_rollback; [done|].
    eapply close_err_recorded, step_tx_recorded, He.
Qed.

(** The sticky reading of C1 fails: the first statement of a unit of work
    fails, the second succeeds, and [Close] commits. *)
Lemma DBTx_Close_commits_after_overwritten_error :
  (unit_of_work 0%nat None overwritten_steps overwritten_world).1
    = Ret ([Some driver_error; None], None)
  ∧ w_calls (unit_of_work 0%nat None overwritten_steps overwritten_world).2
    = [DB_Begin 0%nat; Tx_Exec 0%nat "INSERT INTO users" [];
       Tx_Query 0%nat "SELECT 1" []; Tx_Commit 0%nat].
Proof. split; vm_compute; reflexivity. Qed.

(** The last statement of the unit of work fails: [Close] rolls back. *)
Lemma DBTx_Close_rolls_back_on_last_error_witness :
  ∃ t err w'',
    w_txs last_fails_end !! 0%nat = Some t
    ∧ DBTx_Close 0%nat last_fails_end = (Ret err, w'')
    ∧ w_calls w'' = w_calls last_fails_end ++ [Tx_Rollback (tx_tx t)].
Proof.
  destruct (DBTx_Close_rolls_back_on_last_error 0%nat [sample_select]
              sample_insert last_fails_world)
    as (results & r & w' & Hrun & Hroll).
  { vm_compute. eauto. }
  assert (run 0%nat ([sample_select] ++ [sample_insert]) last_fails_world
          = (Ret ([None] ++ [Some driver_error]), last_fails_end)) as Heval
    by (vm_compute; reflexivity).
  rewrite Heval in Hrun. injection Hrun as Hres <-.
  apply (app_inj_tail [None] results) in Hres as [_ <-].
  apply (Hroll driver_error). reflexivity.
Defined.

(** C2: a transaction handed out by [BeginTx], on which every query and exec
    succeeded and no error was set, and whose context is nil or not done when
    [Close] is called, is committed. *)
Theorem DBTx_Close_commits_clean_unit store ctx w p w1 steps results w2 t :
  DBStore_BeginTx store ctx w = (Ret (Some p, None), w1) →
  Forall (λ s, s ≠ CallClose) steps →
  run p steps w1 = (Ret results, w2) →
  Forall2 (λ s r, ∀ e, recorded s r ≠ Some (Some e)) steps results →
  w_txs w2 !! p = Some t →
  (tx_Ctx t = None ∨ ∃ c, tx_Ctx t = Some c ∧ w_done w2 !! c = None) →
  ∃ err w3,
    DBTx_Close p w2 = (Ret err, w3)
    ∧ w_calls w3 = w_calls w2 ++ [Tx_Commit (tx_tx t)].
Proof.
  intros Hb Hnc Hrun Hrec Ht Hctx.
  destruct (DBStore_BeginTx_ok _ _ _ _ _ Hb) as (t0 & Ht0 & He0 & _).
  destruct (run_clean _ _ _ _ _ _ Hrun Ht0 He0 Hnc Hrec) as (t' & Ht' & He').
  rewrite Ht in Ht'. injection Ht' as <-.
  destruct (DBTx_Close_calls p t w2 Ht) as (err & w3 & Hc & Hcalls).
  exists err, w3. split; [done|].
  rewrite Hcalls, close_call_commit; [done|].
  unfold close_err, ctx_error.
  destruct Hctx as [->|(c & -> & ->)]; done.
Qed.

(** Two statements succeed under the live context 5: [Close] commits. *)
Lemma DBTx_Close_commits_clean_unit_witness :
  ∃ err w3,
    DBTx_Close 0%nat clean_end = (Ret err, w3)
    ∧ w_calls w3 = w_calls clean_end ++ [Tx_Commit (tx_tx clean_tx)].
Proof.
  apply (DBTx_Close_commits_clean_unit 0%nat (Some 5%nat) clean_begin 0%nat
           clean_world clean_steps [None; None; None] clean_end clean_tx).
  - vm_compute. reflexivity.
  - repeat constructor; discriminate.
  - vm_compute. reflexivity.
  - repeat constructor; intros e; discriminate.
  - vm_compute. reflexivity.
  - right. exists 5%nat. split; vm_compute; reflexivity.
Defined.

(** C3: when the context bound to the transaction was cancelled, or its
    deadline passed, before [Close] is called, [Close] issues a rollback,
    whatever the queries and execs returned and whatever error was recorded;
    the error of the context is what [tx.err] holds afterwards. *)
Theorem DBTx_Close_rolls_back_done_context tx steps w results w' t c :
  is_Some (w_txs w !! tx) →
  run tx steps w = (Ret results, w') →
  w_txs w' !! tx = Some t →
  tx_Ctx t = Some c →
  CtxCancel c ∈ steps ∨ CtxDeadline c ∈ steps ∨ is_Some (w_done w !! c) →
  ∃ e err w'',
    w_done w' !! c = Some e
    ∧ DBTx_Close tx w' = (Ret err, w'')
    ∧ w_calls w'' = w_calls w' ++ [Tx_Rollback (tx_tx t)]
    ∧ tx_err <$> w_txs w'' !! tx = Some (Some e).
Proof.
  intros [t0 Ht0] Hrun Ht Hc Hdone.
  assert (is_Some (w_done w' !! c)) as [e He].
  { destruct Hdone as [H|[H|[e H]]].
    - eapply run_done_cancel; eauto.
    - eapply run_done_cancel; eauto.
    - exists e. eapply run_done_mono; eauto. }
  assert (ctx_error t w' = Some e) as Hce by (unfold ctx_error; by rewrite Hc).
  exists e. rewrite (DBTx_Close_run _ _ _ Ht). do 2 eexists.
  split; [done|]. split; [reflexivity|]. cbn. rewrite Hce. split.
  - unfold close_call, close_err. by rewrite Hce.
  - by rewrite lookup_insert_eq.
Qed.

(** Context 5 is cancelled between two statements that succeed. *)
Lemma DBTx_Close_rolls_back_done_context_witness :
  ∃ e err w'',
    w_done cancelled_end !! 5%nat = Some e
    ∧ DBTx_Close 0%nat cancelled_end = (Ret err, w'')
    ∧ w_calls w'' = w_calls cancelled_end ++ [Tx_Rollback (tx_tx clean_tx)]
    ∧ tx_err <$> w_txs w'' !! 0%nat = Some (Some e).
Proof.
  apply (DBTx_Close_rolls_back_done_context 0%nat cancelled_steps clean_world
           [None; None; None] cancelled_end clean_tx 5%nat).
  - vm_compute. eauto.
  - vm_compute. reflexivity.
  - vm_compute. reflexivity.
  - reflexivity.
  - left. unfold cancelled_steps. set_solver.
Defined.

(** C10: no operation writes the affected-row count.  After any sequence of
    query, exec, set-error, set-context and close calls (and whatever happens
    to the contexts) the sequence has run to its end and the count is what it
    was; on a transaction handed out by [BeginTx] that is zero. *)
Theorem DBTx_rowsAffected_never_written tx t steps w :
  w_txs w !! tx = Some t →
  ∃ results w' t',
    run tx steps w = (Ret results, w')
    ∧ w_txs w' !! tx = Some t'
    ∧ tx_rowsAffected t' = tx_rowsAffected t
    ∧ ∀ store ctx w0,
        DBStore_BeginTx store ctx w0 = (Ret (Some tx, None), w) →
        tx_rowsAffected t' = 0.
Proof.
  intros Ht.
  destruct (run_ok tx steps t w Ht) as (rs & w' & t' & Hrun & Ht' & _ & Hra & _).
  exists rs, w', t'. repeat split; [done..|].
  intros store ctx w0 Hb.
  destruct (DBStore_BeginTx_ok _ _ _ _ _ Hb) as (t0 & Ht0 & _ & Hra0 & _).
  congruence.
Qed.

(** A long life: statements, a cancellation, closes and a late query. *)
Lemma DBTx_rowsAffected_never_written_witness :
  ∃ results w' t',
    run 0%nat (cancelled_steps ++ reuse_steps) clean_world = (Ret results, w')
    ∧ w_txs w' !! 0%nat = Some t'
    ∧ tx_rowsAffected t' = tx_rowsAffected clean_tx
    ∧ ∀ store ctx w0,
        DBStore_BeginTx store ctx w0 = (Ret (Some 0%nat, None), clean_world) →
        tx_rowsAffected t' = 0.
Proof.
  apply (DBTx_rowsAffected_never_written 0%nat clean_tx).
  vm_compute. reflexivity.
Defined.

(** ** Closing twice *)

Lemma new_calls_app w w' cs :
  w_calls w' = w_calls w ++ cs → new_calls w w' = cs.
Proof. intros H. unfold new_calls. rewrite H. apply drop_app_length. Qed.

Lemma close_call_cases t w :
  close_call t w = Tx_Commit (tx_tx t) ∨ close_call t w = Tx_Rollback (tx_tx t).
Proof. unfold close_call. destruct (close_err t w); auto. Qed.

Lemma close_call_rollback_iff t w :
  close_call t w = Tx_Rollback (tx_tx t)
  ↔ is_Some (tx_err t) ∨ ∃ c, tx_Ctx t = Some c ∧ is_Some (w_done w !! c).
Proof.
  unfold close_call, close_err, ctx_error.
  destruct (tx_Ctx t) as [c|]; [destruct (w_done w !! c) as [e|] eqn:Hc|];
    destruct (tx_err t) as [e'|]; split; intros H;
    try reflexivity; try discriminate; try (left; by eexists).
  - right. exists c. split; [done|]. rewrite Hc. by eexists.
  - destruct H as [[x Hx]|(c' & Hc' & [x Hx])]; congruence.
  - destruct H as [[x Hx]|(c' & Hc' & _)]; congruence.
Qed.

Lemma close_call_commit_iff t w :
  close_call t w = Tx_Commit (tx_tx t)
  ↔ tx_err t = None ∧ ∀ c, tx_Ctx t = Some c → w_done w !! c = None.
Proof.
  unfold close_call, close_err, ctx_error.
  destruct (tx_Ctx t) as [c|]; [destruct (w_done w !! c) as [e|] eqn:Hc|];
    destruct (tx_err t) as [e'|]; split; intros H;
    try reflexivity; try discriminate; try (destruct H; discriminate).
  - destruct H as [_ H]. specialize (H c eq_refl). congruence.
  - split; [done|]. congruence.
  - split; [done|]. congruence.
Qed.

(** What [Close] leaves of the transaction object, and what it decides on
    the object it left. *)
Lemma close_err_again t w t1 w1 :
  tx_Ctx t1 = tx_Ctx t →
  w_done w1 = w_done w →
  tx_err t1 = close_err t w →
  close_err t1 w1 = close_err t w.
Proof.
  intros Hc Hd He. unfold close_err, ctx_error in *. rewrite Hc, Hd, He.
  destruct (tx_Ctx t) as [c|]; [|done]. by destruct (w_done w !! c).
Qed.

(** C8, as the code has it: [DBTx] keeps no record of having been closed.
    [Close] returns and hands one commit or rollback to the [sql.Tx], decided
    by the recorded error and the context; it leaves the object in place and
    as it was, apart from [tx.err], which holds the error [Close] decided on.
    So a second [Close] runs like the first, decides like the first, and
    hands the same call to the [sql.Tx] once more, and a query or exec after
    [Close] is handed to the [sql.Tx] as before and assigns [tx.err] as
    before.  Refusing them is left to [database/sql]. *)
Theorem DBTx_Close_keeps_no_closed_state tx t w :
  w_txs w !! tx = Some t →
  ∃ err1 w1 t1 err2 w2 c,
    DBTx_Close tx w = (Ret err1, w1)
    ∧ w_calls w1 = w_calls w ++ [c]
    ∧ (c = Tx_Commit (tx_tx t) ∨ c = Tx_Rollback (tx_tx t))
    ∧ (c = Tx_Rollback (tx_tx t)
       ↔ is_Some (tx_err t) ∨ ∃ x, tx_Ctx t = Some x ∧ is_Some (w_done w !! x))
    ∧ w_txs w1 !! tx = Some t1
    ∧ tx_tx t1 = tx_tx t
    ∧ tx_debug t1 = tx_debug t
    ∧ tx_slowlog t1 = tx_slowlog t
    ∧ tx_rowsAffected t1 = tx_rowsAffected t
    ∧ tx_Ctx t1 = tx_Ctx t
    ∧ tx_err t1 = close_err t w
    ∧ DBTx_Close tx w1 = (Ret err2, w2)
    ∧ w_calls w2 = w_calls w ++ [c; c]
    ∧ w_txs w2 !! tx = Some t1
    ∧ (∀ sql args, ∃ rows err w',
         DBTx_Query tx sql args w1 = (Ret (rows, err), w')
         ∧ new_calls w1 w' = [query_call t1 sql args]
         ∧ tx_err <$> w_txs w' !! tx = Some err)
    ∧ (∀ sql args, ∃ result err w',
         DBTx_Exec tx sql args w1 = (Ret (result, err), w')
         ∧ new_calls w1 w' = [exec_call t1 sql args]
         ∧ tx_err <$> w_txs w' !! tx = Some err).
Proof.
  intros Ht.
  pose proof (DBTx_Close_run tx t w Ht) as H1.
  set (w1 := set_calls _ _) in H1.
  set (t1 := match ctx_error t w with
             | Some e => with_err t (Some e)
             | None => t
             end).
  assert (w_txs w1 !! tx = Some t1) as Ht1.
  { unfold w1, t1. cbn. destruct (ctx_error t w); [apply lookup_insert_eq|done]. }
  assert (tx_tx t1 = tx_tx t ∧ tx_debug t1 = tx_debug t
          ∧ tx_slowlog t1 = tx_slowlog t
          ∧ tx_rowsAffected t1 = tx_rowsAffected t
          ∧ tx_Ctx t1 = tx_Ctx t ∧ tx_err t1 = close_err t w)
    as (Hh & Hdbg & Hslow & Hra & Hctx & Herr).
  { unfold t1, close_err. by destruct (ctx_error t w). }
  assert (close_call t1 w1 = close_call t w) as Hcall.
  { unfold close_call. rewrite (close_err_again t w t1 w1), Hh; done. }
  pose proof (DBTx_Close_run tx t1 w1 Ht1) as H2. rewrite Hcall in H2.
  set (w2 := set_calls _ _) in H2.
  do 5 eexists. exists (close_call t w).
  split; [exact H1|]. split; [done|]. split; [apply close_call_cases|].
  split; [apply close_call_rollback_iff|]. split; [exact Ht1|].
  do 6 (split; [done|]). split; [exact H2|].
  split; [unfold w2, w1; cbn; by rewrite <- app_assoc|].
  split.
  { unfold w2. cbn.
    assert (ctx_error t1 w1 = ctx_error t w) as ->
      by (unfold ctx_error; by rewrite Hctx).
    unfold t1 in *. destruct (ctx_error t w); [|exact Ht1].
    rewrite lookup_insert_eq. reflexivity. }
  split; intros sql args.
  - rewrite (DBTx_Query_run _ _ _ _ _ Ht1). do 3 eexists.
    split; [reflexivity|]. split; [by apply new_calls_app|].
    cbn. by rewrite lookup_insert_eq.
  - rewrite (DBTx_Exec_run _ _ _ _ _ Ht1). do 3 eexists.
    split; [reflexivity|]. split; [by apply new_calls_app|].
    cbn. by rewrite lookup_insert_eq.
Qed.

(** On the transaction of [clean_world]. *)
Lemma DBTx_Close_keeps_no_closed_state_witness :
  ∃ err1 w1 t1 err2 w2 c,
    DBTx_Close 0%nat clean_world = (Ret err1, w1)
    ∧ w_calls w1 = w_calls clean_world ++ [c]
    ∧ (c = Tx_Commit (tx_tx clean_tx) ∨ c = Tx_Rollback (tx_tx clean_tx))
    ∧ (c = Tx_Rollback (tx_tx clean_tx)
       ↔ is_Some (tx_err clean_tx)
         ∨ ∃ x, tx_Ctx clean_tx = Some x ∧ is_Some (w_done clean_world !! x))
    ∧ w_txs w1 !! 0%nat = Some t1
    ∧ tx_tx t1 = tx_tx clean_tx
    ∧ tx_debug t1 = tx_debug clean_tx
    ∧ tx_slowlog t1 = tx_slowlog clean_tx
    ∧ tx_rowsAffected t1 = tx_rowsAffected clean_tx
    ∧ tx_Ctx t1 = tx_Ctx clean_tx
    ∧ tx_err t1 = close_err clean_tx clean_world
    ∧ DBTx_Close 0%nat w1 = (Ret err2, w2)
    ∧ w_calls w2 = w_calls clean_world ++ [c; c]
    ∧ w_txs w2 !! 0%nat = Some t1
    ∧ (∀ sql args, ∃ rows err w',
         DBTx_Query 0%nat sql args w1 = (Ret (rows, err), w')
         ∧ new_calls w1 w' = [query_call t1 sql args]
         ∧ tx_err <$> w_txs w' !! 0%nat = Some err)
    ∧ (∀ sql args, ∃ result err w',
         DBTx_Exec 0%nat sql args w1 = (Ret (result, err), w')
         ∧ new_calls w1 w' = [exec_call t1 sql args]
         ∧ tx_err <$> w_txs w' !! 0%nat = Some err).
Proof.
  apply (DBTx_Close_keeps_no_closed_state 0%nat clean_tx clean_world).
  vm_compute. reflexivity.
Defined.

(** C8 fails as stated: after [Close] committed, a second [Close] issues a
    commit again, the query that follows is sent to the transaction handle,
    and the [Close] after it issues a rollback. *)
Lemma DBTx_second_Close_issues_commit_again :
  (run 0%nat reuse_steps clean_world).1
    = Ret [None; Some sql_ErrTxDone; Some sql_ErrTxDone; Some sql_ErrTxDone]
  ∧ new_calls clean_world (run 0%nat reuse_steps clean_world).2
    = [Tx_Commit 0%nat; Tx_Commit 0%nat;
       Tx_QueryContext 0%nat 5%nat "SELECT 1" []; Tx_Rollback 0%nat].
Proof. split; vm_compute; reflexivity. Qed.

(** C4, as the code has it: the first successful [Close] sets the handle to
    nil, and a second [Close] never returns success: it does not return at
    all.  It calls [Close] on the nil [*sql.DB] and panics, before anything
    reaches [database/sql]. *)
Theorem DBStore_second_Close_panics store w w1 :
  DBStore_Close store w = (Ret None, w1) →
  DBStore_Close store w1 = (Panic nil_deref, w1).
Proof.
  intros H. destruct (w_stores w !! store) as [s|] eqn:Hs.
  - rewrite (DBStore_Close_run _ _ _ Hs) in H.
    destruct (store_DB s) as [h|]; [|discriminate].
    destruct (rep_err _); [discriminate|]. injection H as <-.
    rewrite (DBStore_Close_run store
               (mkDBStore None (store_debug s) (store_slowlog s)));
      [reflexivity|].
    cbn. apply lookup_insert_eq.
  - rewrite (DBStore_Close_unallocated _ _ Hs) in H. discriminate.
Qed.

(** On the store of [clean_begin]. *)
Lemma DBStore_second_Close_panics_witness :
  DBStore_Close 0%nat closed_world = (Panic nil_deref, closed_world).
Proof.
  apply (DBStore_second_Close_panics 0%nat clean_begin closed_world).
  vm_compute. reflexivity.
Defined.

(** C4 fails as stated: the second [Close] returns no error value. *)
Lemma DBStore_second_Close_returns_no_error :
  (DBStore_Close 0%nat clean_begin).1 = Ret None
  ∧ (DBStore_Close 0%nat closed_world).1 = Panic nil_deref
  ∧ ¬ ∃ err, (DBStore_Close 0%nat closed_world).1 = Ret (Some err).
Proof.
  assert ((DBStore_Close 0%nat closed_world).1 = Panic nil_deref) as H
    by (vm_compute; reflexivity).
  split; [vm_compute; reflexivity|]. split; [exact H|].
  rewrite H. intros [err Herr]. discriminate.
Qed.

(** ** [SetError] through the decorator *)

(** C6 fails on the code: [TracedDB.SetError] has an empty body.  On the
    traced transaction the error is dropped: nothing changes, the wrapped
    transaction records nothing and the close that follows commits, whereas
    the same call on the transaction itself records the error and close rolls
    back.  The tracer is indeed left alone. *)
Lemma TracedDB_SetError_drops_the_error :
  (∀ db ctx err w, SetError (OpenTrace ctx db) err w = (Ret tt, w))
  ∧ SetError traced_tx (Some driver_error) clean_world = (Ret tt, clean_world)
  ∧ new_calls clean_world
      ((SetError traced_tx (Some driver_error);; DBTx_Close 0%nat) clean_world).2
    = [Tx_Commit 0%nat]
  ∧ tx_err <$> w_txs (SetError (DBTx_DB 0%nat) (Some driver_error) clean_world).2
               !! 0%nat
    = Some (Some driver_error)
  ∧ new_calls clean_world
      ((SetError (DBTx_DB 0%nat) (Some driver_error);; DBTx_Close 0%nat)
         clean_world).2
    = [Tx_Rollback 0%nat].
Proof.
  split; [reflexivity|]. split; [reflexivity|].
  repeat split; vm_compute; reflexivity.
Qed.

(** ** The slow-query log *)

Lemma new_log_app w w' ls : w_log w' = w_log w ++ ls → new_log w w' = ls.
Proof. intros H. unfold new_log. rewrite H. apply drop_app_length. Qed.

Lemma slow_fires_iff w w' debug slowlog span sql args :
  new_log w w' = debug_lines debug sql args ++ slow_lines slowlog span sql args →
  slow_fires w w' ↔ 0 < slowlog ∧ slowlog < span.
Proof.
  intros H. unfold slow_fires. rewrite H. unfold debug_lines, slow_lines. split.
  - intros (d & q & a & Hin). apply elem_of_app in Hin as [Hin|Hin].
    + destruct debug; [|by apply elem_of_nil in Hin].
      apply list_elem_of_singleton in Hin. discriminate.
    + destruct ((0 <? slowlog) && (slowlog <? span)) eqn:Hc;
        [|by apply elem_of_nil in Hin].
      apply andb_true_iff in Hc as [H1 H2]. lia.
  - intros [H1 H2]. exists span, sql, args. apply elem_of_app. right.
    replace ((0 <? slowlog) && (slowlog <? span)) with true; [set_solver|].
    symmetry. apply andb_true_iff. lia.
Qed.

(** C7: a query or exec, on a store or on a transaction, prints a SLOW line
    if and only if the threshold is positive and the duration the call
    measures is strictly greater than the threshold.  In particular no SLOW
    line is printed under the zero threshold a new store starts with. *)
Theorem SLOW_line_iff_over_positive_threshold store s tx t sql args w :
  (w_stores w !! store = Some s →
   (slow_fires w (DBStore_Query store sql args w).2
      ↔ 0 < store_slowlog s ∧ store_slowlog s < measured w)
   ∧ (slow_fires w (DBStore_Exec store sql args w).2
      ↔ 0 < store_slowlog s ∧ store_slowlog s < measured w))
  ∧ (w_txs w !! tx = Some t →
     (slow_fires w (DBTx_Query tx sql args w).2
        ↔ 0 < tx_slowlog t ∧ tx_slowlog t < measured w)
     ∧ (slow_fires w (DBTx_Exec tx sql args w).2
        ↔ 0 < tx_slowlog t ∧ tx_slowlog t < measured w)).
Proof.
  split; [intros Hs|intros Ht]; split.
  - rewrite (DBStore_Query_run _ _ _ _ _ Hs).
    eapply slow_fires_iff, new_log_app; reflexivity.
  - rewrite (DBStore_Exec_run _ _ _ _ _ Hs).
    eapply slow_fires_iff, new_log_app; reflexivity.
  - rewrite (DBTx_Query_run _ _ _ _ _ Ht).
    eapply slow_fires_iff, new_log_app; reflexivity.
  - rewrite (DBTx_Exec_run _ _ _ _ _ Ht).
    eapply slow_fires_iff, new_log_app; reflexivity.
Qed.

(** Threshold 50ns, measured 80ns. *)
Lemma SLOW_line_iff_over_positive_threshold_witness :
  ((slow_fires slow_world (DBStore_Query 0%nat "SELECT 1" [] slow_world).2
      ↔ 0 < store_slowlog slow_store ∧ store_slowlog slow_store < measured slow_world)
   ∧ (slow_fires slow_world (DBStore_Exec 0%nat "SELECT 1" [] slow_world).2
      ↔ 0 < store_slowlog slow_store ∧ store_slowlog slow_store < measured slow_world))
  ∧ ((slow_fires slow_world (DBTx_Query 0%nat "SELECT 1" [] slow_world).2
        ↔ 0 < tx_slowlog slow_tx ∧ tx_slowlog slow_tx < measured slow_world)
     ∧ (slow_fires slow_world (DBTx_Exec 0%nat "SELECT 1" [] slow_world).2
        ↔ 0 < tx_slowlog slow_tx ∧ tx_slowlog slow_tx < measured slow_world)).
Proof.
  destruct (SLOW_line_iff_over_positive_threshold 0%nat slow_store 0%nat slow_tx
              "SELECT 1" [] slow_world) as [Hs Ht].
  split; [apply Hs|apply Ht]; vm_compute; reflexivity.
Defined.

(** ** The factories *)

Lemma lower_byte_ascii c :
  (nat_of_ascii (lower_byte c) <? RuneSelf)%nat = true →
  (nat_of_ascii c <? RuneSelf)%nat = true.
Proof. destruct c as [[] [] [] [] [] [] [] []]; vm_compute; congruence. Qed.

Lemma lower_isASCII s :
  isASCII (map_bytes lower_byte s) = true → isASCII s = true.
Proof.
  induction s as [|c s IH]; [done|]. cbn [map_bytes isASCII].
  intros [H1 H2]%andb_true_iff. apply andb_true_iff.
  split; [by apply lower_byte_ascii|auto].
Qed.

Lemma lower_no_upper s : hasUpper s = false → map_bytes lower_byte s = s.
Proof.
  induction s as [|c s IH]; [done|]. cbn [map_bytes hasUpper].
  intros [H1 H2]%orb_false_iff. rewrite IH by done.
  unfold lower_byte. by rewrite H1.
Qed.

(** On a letter-case variant of an ASCII word, [strings.ToLower] returns the
    word, whatever the Unicode tables say. *)
Lemma ToLower_any_case unicode_ToLower word driver :
  isASCII word = true →
  any_case_of word driver →
  strings_ToLower unicode_ToLower driver = word.
Proof.
  unfold any_case_of. intros Hw Hd. unfold strings_ToLower.
  rewrite lower_isASCII by (by rewrite Hd).
  destruct (hasUpper driver) eqn:Hu; cbn [negb]; [done|].
  by rewrite <- Hd, lower_no_upper.
Qed.

Lemma open_store_calls driver dsn w :
  new_calls w (open_store driver dsn w).2 = [sql_Open driver dsn].
Proof.
  apply new_calls_app. destruct w as [clk tick sq calls dn lg sp st txs].
  unfold open_store, new_store. mrun.
  destruct (sq calls (sql_Open driver dsn)) as [v [e|]]; reflexivity.
Qed.

(** C9: a driver name that [strings.ToLower] maps to neither ["mysql"] nor
    ["mssql"] makes both factories fail with the unsupported-driver error,
    without a store and without calling [sql.Open]; any letter-case variant
    of ["mysql"] or ["mssql"] makes them go on to [sql.Open] with the driver
    name as given. *)
Theorem NewDBStore_unsupported_driver unicode_ToLower driver host port
    database username password charset w :
  (strings_ToLower unicode_ToLower driver ≠ "mysql" →
   strings_ToLower unicode_ToLower driver ≠ "mssql" →
   NewDBStore unicode_ToLower driver host port database username password w
     = (Ret (None, Some (unsupported driver)), w)
   ∧ NewDBStoreCharset unicode_ToLower driver host port database username
       password charset w
     = (Ret (None, Some (unsupported driver)), w))
  ∧ (any_case_of "mysql" driver ∨ any_case_of "mssql" driver →
     (∃ dsn,
        new_calls w (NewDBStore unicode_ToLower driver host port database
                       username password w).2
        = [sql_Open driver dsn])
     ∧ (∃ dsn,
          new_calls w (NewDBStoreCharset unicode_ToLower driver host port
                         database username password charset w).2
          = [sql_Open driver dsn])).
Proof.
  unfold NewDBStore, NewDBStoreCharset. split.
  - intros H1 H2.
    apply String.eqb_neq in H1, H2. rewrite H1, H2. done.
  - intros [H|H].
    + rewrite (ToLower_any_case unicode_ToLower "mysql" driver) by done.
      cbn [String.eqb Ascii.eqb Bool.eqb]. cbv iota.
      split; eexists; apply open_store_calls.
    + rewrite (ToLower_any_case unicode_ToLower "mssql" driver) by done.
      cbn [String.eqb Ascii.eqb Bool.eqb]. cbv iota.
      split; eexists; apply open_store_calls.
Qed.

(** ["Oracle"] is refused, ["MySQL"] reaches [sql.Open]. *)
Lemma NewDBStore_unsupported_driver_witness :
  (NewDBStore no_unicode "Oracle" "db1" 1521 "orm" "scott" "tiger" clean_begin
     = (Ret (None, Some (unsupported "Oracle")), clean_begin)
   ∧ NewDBStoreCharset no_unicode "Oracle" "db1" 1521 "orm" "scott" "tiger"
       "utf8" clean_begin
     = (Ret (None, Some (unsupported "Oracle")), clean_begin))
  ∧ (∃ dsn,
       new_calls clean_begin
         (NewDBStore no_unicode "MySQL" "db1" 3306 "orm" "scott" "tiger"
            clean_begin).2
       = [sql_Open "MySQL" dsn])
  ∧ (∃ dsn,
       new_calls clean_begin
         (NewDBStoreCharset no_unicode "MySQL" "db1" 3306 "orm" "scott" "tiger"
            "utf8" clean_begin).2
       = [sql_Open "MySQL" dsn]).
Proof.
  split.
  - apply (NewDBStore_unsupported_driver no_unicode "Oracle" "db1" 1521 "orm"
             "scott" "tiger" "utf8" clean_begin); vm_compute; discriminate.
  - apply (NewDBStore_unsupported_driver no_unicode "MySQL" "db1" 3306 "orm"
             "scott" "tiger" "utf8" clean_begin).
    left. vm_compute. reflexivity.
Defined.

(** ** The tracing decorator *)

Lemma TracedDB_Query_decorated db c sql args w :
  TracedDB_Query (mkTracedDB db (Some c)) sql args w
  = decorated "DB Query" (Some c) sql args (Query db sql args) w.
Proof.
  destruct w as [clk tick sq calls dn lg sp st txs].
  unfold TracedDB_Query, decorated, emit, span_opened, span_closed.
  cbn [traced_DB traced_ctx]. mrun. rewrite <- app_assoc. cbn [app].
  destruct (Query db sql args _) as [[[rows [e|]]|msg] w']; mrun;
    rewrite <- ?app_assoc; reflexivity.
Qed.

Lemma TracedDB_Exec_decorated db c sql args w :
  TracedDB_Exec (mkTracedDB db (Some c)) sql args w
  = decorated "DB Exec" (Some c) sql args (Exec db sql args) w.
Proof.
  destruct w as [clk tick sq calls dn lg sp st txs].
  unfold TracedDB_Exec, decorated, emit, span_opened, span_closed.
  cbn [traced_DB traced_ctx]. mrun. rewrite <- app_assoc. cbn [app].
  destruct (Exec db sql args _) as [[[rows [e|]]|msg] w']; mrun;
    rewrite <- ?app_assoc; reflexivity.
Qed.


(** Around an executor that leaves the tracer alone, the decorator returns
    what the executor returns when called directly, and adds to the tracer
    the opened and the closed span, nothing else. *)
Lemma decorated_tracer_free {A} operationName ctx sql args
    (m : M (A * option error)) w :
  tracer_free m →
  decorated operationName ctx sql args m w
  = (let (r, w') := m w in
     (r, set_spans (w_spans w
                    ++ span_opened (length (w_spans w)) operationName ctx sql args
                    ++ span_closed (length (w_spans w)) r) w')).
Proof.
  intros Hm. unfold decorated, emit. rewrite Hm.
  destruct (m w) as [r w']. destruct w'; cbn. by rewrite <- app_assoc.
Qed.

Lemma DBTx_Query_tracer_free tx sql args : tracer_free (DBTx_Query tx sql args).
Proof.
  intros [clk tick sq calls dn lg sp0 st txs] sp. unfold DBTx_Query. mrun.
  destruct (txs !! tx) as [[h dbg slow err ra ctx]|] eqn:Ht; mrun; [|done].
  destruct (0 <? slow); destruct dbg; destruct ctx as [c|]; mrun;
    try destruct (slow <? _); mrun; reflexivity.
Qed.

Lemma DBTx_Exec_tracer_free tx sql args : tracer_free (DBTx_Exec tx sql args).
Proof.
  intros [clk tick sq calls dn lg sp0 st txs] sp. unfold DBTx_Exec. mrun.
  destruct (txs !! tx) as [[h dbg slow err ra ctx]|] eqn:Ht; mrun; [|done].
  destruct (0 <? slow); destruct dbg; destruct ctx as [c|]; mrun;
    try destruct (slow <? _); mrun; reflexivity.
Qed.

Lemma DBStore_Query_tracer_free store sql args :
  tracer_free (DBStore_Query store sql args).
Proof.
  intros [clk tick sq calls dn lg sp0 st txs] sp. unfold DBStore_Query. mrun.
  destruct (st !! store) as [[db dbg slow]|] eqn:Hs; mrun; [|done].
  destruct (0 <? slow); destruct dbg; destruct db as [h|]; mrun;
    try destruct (slow <? _); mrun; reflexivity.
Qed.

Lemma DBStore_Exec_tracer_free store sql args :
  tracer_free (DBStore_Exec store sql args).
Proof.
  intros [clk tick sq calls dn lg sp0 st txs] sp. unfold DBStore_Exec. mrun.
  destruct (st !! store) as [[db dbg slow]|] eqn:Hs; mrun; [|done].
  destruct (0 <? slow); destruct dbg; destruct db as [h|]; mrun;
    try destruct (slow <? _); mrun; reflexivity.
Qed.


(** * More of the code *)

(** ** The close protocol, in full *)

(** [Close] on a transaction returns, and hands exactly one call to the
    [sql.Tx]: a rollback if and only if an error is recorded or the attached
    context is done, a commit if and only if no error is recorded and the
    context is nil or not done. *)
Theorem DBTx_Close_decision tx t w :
  w_txs w !! tx = Some t →
  ∃ err w' c,
    DBTx_Close tx w = (Ret err, w')
    ∧ new_calls w w' = [c]
    ∧ (c = Tx_Rollback (tx_tx t)
       ↔ is_Some (tx_err t) ∨ ∃ x, tx_Ctx t = Some x ∧ is_Some (w_done w !! x))
    ∧ (c = Tx_Commit (tx_tx t)
       ↔ tx_err t = None ∧ ∀ x, tx_Ctx t = Some x → w_done w !! x = None).
Proof.
  intros Ht. destruct (DBTx_Close_calls tx t w Ht) as (err & w' & Hc & Hcalls).
  exists err, w', (close_call t w). split; [done|].
  split; [by apply new_calls_app|].
  split; [apply close_call_rollback_iff|apply close_call_commit_iff].
Qed.

(** On the transaction of [clean_world]. *)
Lemma DBTx_Close_decision_witness :
  ∃ err w' c,
    DBTx_Close 0%nat clean_world = (Ret err, w')
    ∧ new_calls clean_world w' = [c]
    ∧ (c = Tx_Rollback (tx_tx clean_tx)
       ↔ is_Some (tx_err clean_tx)
         ∨ ∃ x, tx_Ctx clean_tx = Some x ∧ is_Some (w_done clean_world !! x))
    ∧ (c = Tx_Commit (tx_tx clean_tx)
       ↔ tx_err clean_tx = None
         ∧ ∀ x, tx_Ctx clean_tx = Some x → w_done clean_world !! x = None).
Proof.
  apply (DBTx_Close_decision 0%nat clean_tx clean_world).
  vm_compute. reflexivity.
Defined.

(** What [Close] returns is the outcome of the rollback or commit, not the
    recorded error: on a transaction with a recorded error, [Close] returns
    what the rollback returned, nil when the rollback succeeded. *)
Theorem DBTx_Close_returns_rollback_outcome tx t e w :
  w_txs w !! tx = Some t →
  tx_err t = Some e →
  (DBTx_Close tx w).1
  = Ret (rep_err (w_sql w (w_calls w) (Tx_Rollback (tx_tx t)))).
Proof.
  intros Ht He. rewrite (DBTx_Close_run _ _ _ Ht). cbn [fst].
  rewrite close_call_rollback; [done|]. by eapply close_err_recorded.
Qed.

(** The last statement failed with [driver_error]; the rollback succeeds and
    [Close] returns nil. *)
Lemma DBTx_Close_returns_rollback_outcome_witness :
  (DBTx_Close 0%nat last_fails_end).1
  = Ret (rep_err (w_sql last_fails_end (w_calls last_fails_end)
                    (Tx_Rollback (tx_tx doomed_tx))))
  ∧ rep_err (w_sql last_fails_end (w_calls last_fails_end)
               (Tx_Rollback (tx_tx doomed_tx))) = None.
Proof.
  split.
  - apply (DBTx_Close_returns_rollback_outcome 0%nat doomed_tx driver_error).
    + vm_compute. reflexivity.
    + reflexivity.
  - vm_compute. reflexivity.
Defined.

(** ** Statements on a transaction *)

(** A query or exec on a transaction returns, and the error it returns, nil
    or not, is what [tx.err] holds afterwards, whatever was recorded before.
    No other transaction and no store is touched. *)
Theorem DBTx_statement_records_returned_error tx t tx' sql args w :
  w_txs w !! tx = Some t →
  (∃ rows err w',
     DBTx_Query tx sql args w = (Ret (rows, err), w')
     ∧ tx_err <$> w_txs w' !! tx = Some err
     ∧ (tx' ≠ tx → w_txs w' !! tx' = w_txs w !! tx')
     ∧ w_stores w' = w_stores w)
  ∧ (∃ result err w',
       DBTx_Exec tx sql args w = (Ret (result, err), w')
       ∧ tx_err <$> w_txs w' !! tx = Some err
       ∧ (tx' ≠ tx → w_txs w' !! tx' = w_txs w !! tx')
       ∧ w_stores w' = w_stores w).
Proof.
  intros Ht. split.
  - rewrite (DBTx_Query_run _ _ _ _ _ Ht). do 3 eexists.
    split; [reflexivity|]. cbn. rewrite lookup_insert_eq.
    split; [done|]. split; [|done]. intros Hne. by rewrite lookup_insert_ne.
  - rewrite (DBTx_Exec_run _ _ _ _ _ Ht). do 3 eexists.
    split; [reflexivity|]. cbn. rewrite lookup_insert_eq.
    split; [done|]. split; [|done]. intros Hne. by rewrite lookup_insert_ne.
Qed.

(** On the transaction of [clean_world], next to a location that is free. *)
Lemma DBTx_statement_records_returned_error_witness :
  (∃ rows err w',
     DBTx_Query 0%nat "SELECT 1" [] clean_world = (Ret (rows, err), w')
     ∧ tx_err <$> w_txs w' !! 0%nat = Some err
     ∧ (1%nat ≠ 0%nat → w_txs w' !! 1%nat = w_txs clean_world !! 1%nat)
     ∧ w_stores w' = w_stores clean_world)
  ∧ (∃ result err w',
       DBTx_Exec 0%nat "SELECT 1" [] clean_world = (Ret (result, err), w')
       ∧ tx_err <$> w_txs w' !! 0%nat = Some err
       ∧ (1%nat ≠ 0%nat → w_txs w' !! 1%nat = w_txs clean_world !! 1%nat)
       ∧ w_stores w' = w_stores clean_world).
Proof.
  apply (DBTx_statement_records_returned_error 0%nat clean_tx 1%nat).
  vm_compute. reflexivity.
Defined.

Lemma seq_run {A B} (m : M A) (k : A → M B) w a w1 :
  m w = (Ret a, w1) → (m ≫= k) w = k a w1.
Proof. intros H. unfold mbind, M_bind, bind. by rewrite H. Qed.

Lemma SetContext_lookup tx t ctx w :
  w_txs w !! tx = Some t →
  w_txs (set_txs (<[tx := with_Ctx t ctx]> (w_txs w)) w) !! tx
  = Some (with_Ctx t ctx).
Proof. intros _. cbn. apply lookup_insert_eq. Qed.

Lemma SetError_lookup tx t err w :
  w_txs w !! tx = Some t →
  w_txs (set_txs (<[tx := with_err t err]> (w_txs w)) w) !! tx
  = Some (with_err t err).
Proof. intros _. cbn. apply lookup_insert_eq. Qed.

(** The context a statement runs under is the one attached when it is
    called: after [SetContext], a query or exec is handed to the [sql.Tx]
    with the new context, through [QueryContext] or [ExecContext], and after
    [SetContext(nil)] through the plain [Query] or [Exec]. *)
Theorem DBTx_SetContext_then_statement tx t ctx sql args w :
  w_txs w !! tx = Some t →
  new_calls w ((DBTx_SetContext tx ctx;; DBTx_Query tx sql args) w).2
  = [match ctx with
     | Some c => Tx_QueryContext (tx_tx t) c sql args
     | None => Tx_Query (tx_tx t) sql args
     end]
  ∧ new_calls w ((DBTx_SetContext tx ctx;; DBTx_Exec tx sql args) w).2
    = [match ctx with
       | Some c => Tx_ExecContext (tx_tx t) c sql args
       | None => Tx_Exec (tx_tx t) sql args
       end].
Proof.
  intros Ht. pose proof (SetContext_lookup tx t ctx w Ht) as Ht1. split.
  - rewrite (seq_run _ _ _ _ _ (DBTx_SetContext_run _ _ ctx _ Ht)).
    rewrite (DBTx_Query_run _ _ _ _ _ Ht1). apply new_calls_app.
    by destruct ctx.
  - rewrite (seq_run _ _ _ _ _ (DBTx_SetContext_run _ _ ctx _ Ht)).
    rewrite (DBTx_Exec_run _ _ _ _ _ Ht1). apply new_calls_app.
    by destruct ctx.
Qed.

(** The transaction of [clean_world] is moved from context 5 to context 9. *)
Lemma DBTx_SetContext_then_statement_witness :
  new_calls clean_world
    ((DBTx_SetContext 0%nat (Some 9%nat);; DBTx_Query 0%nat "SELECT 1" [])
       clean_world).2
  = [Tx_QueryContext (tx_tx clean_tx) 9%nat "SELECT 1" []]
  ∧ new_calls clean_world
      ((DBTx_SetContext 0%nat (Some 9%nat);; DBTx_Exec 0%nat "SELECT 1" [])
         clean_world).2
    = [Tx_ExecContext (tx_tx clean_tx) 9%nat "SELECT 1" []].
Proof.
  apply (DBTx_SetContext_then_statement 0%nat clean_tx (Some 9%nat)).
  vm_compute. reflexivity.
Defined.

(** Only the context attached when [Close] is called counts.  On a
    transaction with no recorded error, [SetContext] followed by [Close]
    rolls back if the new context is done and commits if it is nil or not
    done, whatever became of the context attached before. *)
Theorem DBTx_SetContext_then_Close tx t ctx w :
  w_txs w !! tx = Some t →
  tx_err t = None →
  new_calls w ((DBTx_SetContext tx ctx;; DBTx_Close tx) w).2
  = [match ctx with
     | Some c =>
         match w_done w !! c with
         | Some _ => Tx_Rollback (tx_tx t)
         | None => Tx_Commit (tx_tx t)
         end
     | None => Tx_Commit (tx_tx t)
     end].
Proof.
  intros Ht He. pose proof (SetContext_lookup tx t ctx w Ht) as Ht1.
  rewrite (seq_run _ _ _ _ _ (DBTx_SetContext_run _ _ ctx _ Ht)).
  rewrite (DBTx_Close_run _ _ _ Ht1). apply new_calls_app. cbn.
  unfold close_call, close_err, ctx_error. cbn. rewrite He.
  destruct ctx as [c|]; [|done]. by destruct (w_done w !! c).
Qed.

(** Context 5 was cancelled; the transaction is moved to the live context 9
    and commits. *)
Lemma DBTx_SetContext_then_Close_witness :
  new_calls cancelled_end
    ((DBTx_SetContext 0%nat (Some 9%nat);; DBTx_Close 0%nat) cancelled_end).2
  = [match w_done cancelled_end !! 9%nat with
     | Some _ => Tx_Rollback (tx_tx clean_tx)
     | None => Tx_Commit (tx_tx clean_tx)
     end]
  ∧ w_done cancelled_end !! 9%nat = None
  ∧ is_Some (w_done cancelled_end !! 5%nat).
Proof.
  split; [|split].
  - apply (DBTx_SetContext_then_Close 0%nat clean_tx (Some 9%nat) cancelled_end).
    + vm_compute. reflexivity.
    + reflexivity.
  - vm_compute. reflexivity.
  - vm_compute. eauto.
Defined.

(** [SetError] has the last word.  With the attached context nil or not
    done, [SetError] followed by [Close] rolls back if the error given is
    not nil and commits if it is nil, whatever was recorded before: setting
    nil clears a recorded error. *)
Theorem DBTx_SetError_then_Close tx t err w :
  w_txs w !! tx = Some t →
  (∀ c, tx_Ctx t = Some c → w_done w !! c = None) →
  new_calls w ((DBTx_SetError tx err;; DBTx_Close tx) w).2
  = [match err with
     | Some _ => Tx_Rollback (tx_tx t)
     | None => Tx_Commit (tx_tx t)
     end].
Proof.
  intros Ht Hctx. pose proof (SetError_lookup tx t err w Ht) as Ht1.
  rewrite (seq_run _ _ _ _ _ (DBTx_SetError_run _ _ err _ Ht)).
  rewrite (DBTx_Close_run _ _ _ Ht1). apply new_calls_app. cbn.
  unfold close_call, close_err, ctx_error. cbn.
  destruct (tx_Ctx t) as [c|]; [rewrite (Hctx c eq_refl)|]; by destruct err.
Qed.

(** The last statement failed; the error is cleared and [Close] commits. *)
Lemma DBTx_SetError_then_Close_witness :
  new_calls last_fails_end
    ((DBTx_SetError 0%nat None;; DBTx_Close 0%nat) last_fails_end).2
  = [Tx_Commit (tx_tx doomed_tx)].
Proof.
  apply (DBTx_SetError_then_Close 0%nat doomed_tx None last_fails_end).
  - vm_compute. reflexivity.
  - intros c. discriminate.
Defined.

(** ** The connection executor *)

Lemma DBStore_Debug_run store s b w :
  w_stores w !! store = Some s →
  DBStore_Debug store b w
  = (Ret tt,
     set_stores (<[store := mkDBStore (store_DB s) b (store_slowlog s)]>
                   (w_stores w)) w).
Proof.
  intros H. destruct w; simpl in H. destruct s.
  unfold DBStore_Debug. mrun. reflexivity.
Qed.

Lemma DBStore_SlowLog_run store s d w :
  w_stores w !! store = Some s →
  DBStore_SlowLog store d w
  = (Ret tt,
     set_stores (<[store := mkDBStore (store_DB s) (store_debug s) d]>
                   (w_stores w)) w).
Proof.
  intros H. destruct w; simpl in H. destruct s.
  unfold DBStore_SlowLog. mrun. reflexivity.
Qed.

Lemma DBStore_BeginTx_run store s ctx w :
  w_stores w !! store = Some s →
  DBStore_BeginTx store ctx w
  = match store_DB s with
    | None => (Panic nil_deref, w)
    | Some h =>
        match rep_err (w_sql w (w_calls w) (DB_Begin h)) with
        | Some err => (Ret (None, Some err), set_calls (w_calls w ++ [DB_Begin h]) w)
        | None =>
            (Ret (Some (fresh (dom (w_txs w))), None),
             set_calls (w_calls w ++ [DB_Begin h])
               (set_txs
                  (<[fresh (dom (w_txs w)) :=
                       mkDBTx (rep_val (w_sql w (w_calls w) (DB_Begin h)))
                              (store_debug s) (store_slowlog s) None 0 ctx]>
                     (w_txs w)) w))
        end
    end.
Proof.
  intros H.
  destruct w as [clk tick sq calls dn lg sp st txs]; simpl in H.
  destruct s as [db dbg slow].
  unfold DBStore_BeginTx, new_tx. mrun.
  destruct db as [h|]; mrun; [|reflexivity].
  destruct (sq calls (DB_Begin h)) as [v [e|]]; mrun; reflexivity.
Qed.

Lemma fresh_free {V} (m : gmap loc V) : m !! fresh (dom m) = None.
Proof. apply not_elem_of_dom, is_fresh. Qed.

Lemma DBStore_Close_ok_inv store w w1 :
  DBStore_Close store w = (Ret None, w1) →
  ∃ s h,
    w_stores w !! store = Some s
    ∧ store_DB s = Some h
    ∧ w1 = set_calls (w_calls w ++ [DB_Close h])
             (set_stores
                (<[store := mkDBStore None (store_debug s) (store_slowlog s)]>
                   (w_stores w)) w).
Proof.
  intros H. destruct (w_stores w !! store) as [s|] eqn:Hs.
  - rewrite (DBStore_Close_run _ _ _ Hs) in H.
    destruct (store_DB s) as [h|] eqn:Hh; [|discriminate].
    destruct (rep_err _); [discriminate|]. injection H as <-.
    by exists s, h.
  - rewrite (DBStore_Close_unallocated _ _ Hs) in H. discriminate.
Qed.

Lemma DBStore_Close_err_inv store w e w1 :
  DBStore_Close store w = (Ret (Some e), w1) →
  ∃ s h,
    w_stores w !! store = Some s
    ∧ store_DB s = Some h
    ∧ w1 = set_calls (w_calls w ++ [DB_Close h]) w.
Proof.
  intros H. destruct (w_stores w !! store) as [s|] eqn:Hs.
  - rewrite (DBStore_Close_run _ _ _ Hs) in H.
    destruct (store_DB s) as [h|] eqn:Hh; [|discriminate].
    destruct (rep_err _); [|discriminate]. injection H as _ <-.
    by exists s, h.
  - rewrite (DBStore_Close_unallocated _ _ Hs) in H. discriminate.
Qed.

(** A transaction is a snapshot of the store's settings.  The transaction
    [BeginTx] hands out sits at a location that was free, carries the
    store's debug flag and threshold of that moment, no error, a zero
    affected-row count and the context given; and setting the store's debug
    flag or threshold afterwards does not change it. *)
Theorem DBStore_BeginTx_snapshot store s ctx w p w1 b d :
  w_stores w !! store = Some s →
  DBStore_BeginTx store ctx w = (Ret (Some p, None), w1) →
  w_txs w !! p = None
  ∧ (∃ h, w_txs w1 !! p
          = Some (mkDBTx h (store_debug s) (store_slowlog s) None 0 ctx))
  ∧ w_txs ((DBStore_Debug store b;; DBStore_SlowLog store d) w1).2 !! p
    = w_txs w1 !! p.
Proof.
  intros Hs Hb. rewrite (DBStore_BeginTx_run _ _ _ _ Hs) in Hb.
  destruct (store_DB s) as [h|]; [|discriminate].
  destruct (rep_err _); [discriminate|]. injection Hb as <- <-.
  split; [apply fresh_free|]. split.
  - eexists. cbn. apply lookup_insert_eq.
  - set (w1 := set_calls _ _).
    assert (w_stores w1 !! store = Some s) as Hs1 by exact Hs.
    rewrite (seq_run _ _ _ _ _ (DBStore_Debug_run _ _ b _ Hs1)).
    erewrite DBStore_SlowLog_run; [reflexivity|].
    cbn. apply lookup_insert_eq.
Qed.

(** The store of [slow_world] is made verbose after its transaction began. *)
Lemma DBStore_BeginTx_snapshot_witness :
  w_txs (open_world (steady_clock 80) healthy_sql 50) !! 0%nat = None
  ∧ (∃ h, w_txs slow_world !! 0%nat
          = Some (mkDBTx h (store_debug slow_store) (store_slowlog slow_store)
                         None 0 None))
  ∧ w_txs ((DBStore_Debug 0%nat true;; DBStore_SlowLog 0%nat 7) slow_world).2
      !! 0%nat
    = w_txs slow_world !! 0%nat.
Proof.
  apply (DBStore_BeginTx_snapshot 0%nat slow_store None
           (open_world (steady_clock 80) healthy_sql 50) 0%nat slow_world true 7).
  - vm_compute. reflexivity.
  - vm_compute. reflexivity.
Defined.

(** [BeginTx] on an open store returns, after exactly one [Begin] on the
    handle, either a transaction at a location that was free and no error, or
    an error and no transaction, with the transactions as they were: never
    both, never neither. *)
Theorem DBStore_BeginTx_outcomes store s h ctx w :
  w_stores w !! store = Some s →
  store_DB s = Some h →
  ∃ r w',
    DBStore_BeginTx store ctx w = (Ret r, w')
    ∧ new_calls w w' = [DB_Begin h]
    ∧ begin_outcome w r w'.
Proof.
  intros Hs Hh. rewrite (DBStore_BeginTx_run _ _ _ _ Hs), Hh.
  destruct (rep_err _) as [e|]; do 2 eexists;
    (split; [reflexivity|]); (split; [by apply new_calls_app|]).
  - right. by exists e.
  - left. eexists. split; [reflexivity|]. split; [apply fresh_free|].
    cbn. rewrite lookup_insert_eq. by eexists.
Qed.

(** On the open store of [clean_begin]. *)
Lemma DBStore_BeginTx_outcomes_witness :
  ∃ r w',
    DBStore_BeginTx 0%nat (Some 5%nat) clean_begin = (Ret r, w')
    ∧ new_calls clean_begin w' = [DB_Begin 0%nat]
    ∧ begin_outcome clean_begin r w'.
Proof.
  apply (DBStore_BeginTx_outcomes 0%nat (mkDBStore (Some 0%nat) false 0) 0%nat).
  - vm_compute. reflexivity.
  - reflexivity.
Defined.

(** Use after close.  Once [Close] has succeeded, a query, an exec and a
    [BeginTx] on the store all panic on the nil handle, and none of them
    reaches [database/sql]. *)
Theorem DBStore_use_after_Close_panics store w w1 sql args ctx :
  DBStore_Close store w = (Ret None, w1) →
  (DBStore_Query store sql args w1).1 = Panic nil_deref
  ∧ new_calls w1 (DBStore_Query store sql args w1).2 = []
  ∧ (DBStore_Exec store sql args w1).1 = Panic nil_deref
  ∧ new_calls w1 (DBStore_Exec store sql args w1).2 = []
  ∧ DBStore_BeginTx store ctx w1 = (Panic nil_deref, w1).
Proof.
  intros H. apply DBStore_Close_ok_inv in H as (s & h & Hs & Hh & ->).
  set (w1 := set_calls _ _).
  assert (w_stores w1 !! store
          = Some (mkDBStore None (store_debug s) (store_slowlog s))) as Hs1
    by (cbn; apply lookup_insert_eq).
  rewrite (DBStore_Query_run _ _ _ _ _ Hs1), (DBStore_Exec_run _ _ _ _ _ Hs1),
    (DBStore_BeginTx_run _ _ _ _ Hs1).
  repeat split; apply new_calls_app; cbn; by rewrite app_nil_r.
Qed.

(** On the store of [clean_begin], closed. *)
Lemma DBStore_use_after_Close_panics_witness :
  (DBStore_Query 0%nat "SELECT 1" [] closed_world).1 = Panic nil_deref
  ∧ new_calls closed_world (DBStore_Query 0%nat "SELECT 1" [] closed_world).2 = []
  ∧ (DBStore_Exec 0%nat "SELECT 1" [] closed_world).1 = Panic nil_deref
  ∧ new_calls closed_world (DBStore_Exec 0%nat "SELECT 1" [] closed_world).2 = []
  ∧ DBStore_BeginTx 0%nat None closed_world = (Panic nil_deref, closed_world).
Proof.
  apply (DBStore_use_after_Close_panics 0%nat clean_begin closed_world).
  vm_compute. reflexivity.
Defined.

(** A [Close] that fails changes nothing in the store: the handle stays in
    place, so the store can still be used, and a second [Close] calls
    [Close] on the handle again. *)
Theorem DBStore_failed_Close_keeps_handle store w e w1 :
  DBStore_Close store w = (Ret (Some e), w1) →
  w_stores w1 = w_stores w
  ∧ ∃ h, store_DB <$> w_stores w1 !! store = Some (Some h)
         ∧ new_calls w1 (DBStore_Close store w1).2 = [DB_Close h].
Proof.
  intros H. apply DBStore_Close_err_inv in H as (s & h & Hs & Hh & ->).
  split; [done|]. exists h.
  set (w1 := set_calls _ _).
  assert (w_stores w1 !! store = Some s) as Hs1 by exact Hs.
  split; [by rewrite Hs1; cbn; rewrite Hh|].
  rewrite (DBStore_Close_run _ _ _ Hs1), Hh. apply new_calls_app.
  by destruct (rep_err _).
Qed.

(** The first [Close] of the store fails with [driver_error]. *)
Lemma DBStore_failed_Close_keeps_handle_witness :
  w_stores failing_close_end = w_stores failing_close_world
  ∧ ∃ h, store_DB <$> w_stores failing_close_end !! 0%nat = Some (Some h)
         ∧ new_calls failing_close_end (DBStore_Close 0%nat failing_close_end).2
           = [DB_Close h].
Proof.
  apply (DBStore_failed_Close_keeps_handle 0%nat failing_close_world
           driver_error failing_close_end).
  vm_compute. reflexivity.
Defined.

(** A statement on an open store is handed to the handle with the statement
    and the arguments as given, once, and what the handle answers is
    returned as it is.  The call records nothing: no store and no
    transaction changes, whether it failed or not. *)
Theorem DBStore_statement_forwarded store s h sql args w :
  w_stores w !! store = Some s →
  store_DB s = Some h →
  (DBStore_Query store sql args w).1
    = Ret (rep_val (w_sql w (w_calls w) (DB_Query h sql args)),
           rep_err (w_sql w (w_calls w) (DB_Query h sql args)))
  ∧ new_calls w (DBStore_Query store sql args w).2 = [DB_Query h sql args]
  ∧ w_stores (DBStore_Query store sql args w).2 = w_stores w
  ∧ w_txs (DBStore_Query store sql args w).2 = w_txs w
  ∧ (DBStore_Exec store sql args w).1
    = Ret (rep_val (w_sql w (w_calls w) (DB_Exec h sql args)),
           rep_err (w_sql w (w_calls w) (DB_Exec h sql args)))
  ∧ new_calls w (DBStore_Exec store sql args w).2 = [DB_Exec h sql args]
  ∧ w_stores (DBStore_Exec store sql args w).2 = w_stores w
  ∧ w_txs (DBStore_Exec store sql args w).2 = w_txs w.
Proof.
  intros Hs Hh.
  rewrite (DBStore_Query_run _ _ _ _ _ Hs), (DBStore_Exec_run _ _ _ _ _ Hs).
  unfold store_result, store_calls. rewrite Hh. cbn [fst snd].
  split; [done|]. split; [by apply new_calls_app|]. do 2 (split; [done|]).
  split; [done|]. split; [by apply new_calls_app|]. done.
Qed.

(** On the open store of [clean_world], beside its transaction. *)
Lemma DBStore_statement_forwarded_witness :
  (DBStore_Query 0%nat "SELECT 1" [ArgInt 7] clean_world).1
    = Ret (rep_val (w_sql clean_world (w_calls clean_world)
                      (DB_Query 0%nat "SELECT 1" [ArgInt 7])),
           rep_err (w_sql clean_world (w_calls clean_world)
                      (DB_Query 0%nat "SELECT 1" [ArgInt 7])))
  ∧ new_calls clean_world (DBStore_Query 0%nat "SELECT 1" [ArgInt 7] clean_world).2
    = [DB_Query 0%nat "SELECT 1" [ArgInt 7]]
  ∧ w_stores (DBStore_Query 0%nat "SELECT 1" [ArgInt 7] clean_world).2
    = w_stores clean_world
  ∧ w_txs (DBStore_Query 0%nat "SELECT 1" [ArgInt 7] clean_world).2
    = w_txs clean_world
  ∧ (DBStore_Exec 0%nat "SELECT 1" [ArgInt 7] clean_world).1
    = Ret (rep_val (w_sql clean_world (w_calls clean_world)
                      (DB_Exec 0%nat "SELECT 1" [ArgInt 7])),
           rep_err (w_sql clean_world (w_calls clean_world)
                      (DB_Exec 0%nat "SELECT 1" [ArgInt 7])))
  ∧ new_calls clean_world (DBStore_Exec 0%nat "SELECT 1" [ArgInt 7] clean_world).2
    = [DB_Exec 0%nat "SELECT 1" [ArgInt 7]]
  ∧ w_stores (DBStore_Exec 0%nat "SELECT 1" [ArgInt 7] clean_world).2
    = w_stores clean_world
  ∧ w_txs (DBStore_Exec 0%nat "SELECT 1" [ArgInt 7] clean_world).2
    = w_txs clean_world.
Proof.
  apply (DBStore_statement_forwarded 0%nat (mkDBStore (Some 0%nat) false 0) 0%nat).
  - vm_compute. reflexivity.
  - reflexivity.
Defined.

(** The two setters of a store commute, touch nothing but their own field,
    and leave the handle as it is: open stays open and closed stays
    closed. *)
Theorem DBStore_setters_commute store s b d w :
  w_stores w !! store = Some s →
  (DBStore_Debug store b;; DBStore_SlowLog store d) w
  = (DBStore_SlowLog store d;; DBStore_Debug store b) w
  ∧ w_stores ((DBStore_Debug store b;; DBStore_SlowLog store d) w).2 !! store
    = Some (mkDBStore (store_DB s) b d).
Proof.
  intros Hs.
  rewrite (seq_run _ _ _ _ _ (DBStore_Debug_run _ _ b _ Hs)).
  rewrite (seq_run _ _ _ _ _ (DBStore_SlowLog_run _ _ d _ Hs)).
  erewrite DBStore_SlowLog_run by (cbn; apply lookup_insert_eq).
  erewrite DBStore_Debug_run by (cbn; apply lookup_insert_eq).
  cbn. rewrite !insert_insert_eq, lookup_insert_eq. done.
Qed.

(** On the closed store of [closed_world]. *)
Lemma DBStore_setters_commute_witness :
  (DBStore_Debug 0%nat true;; DBStore_SlowLog 0%nat 7) closed_world
  = (DBStore_SlowLog 0%nat 7;; DBStore_Debug 0%nat true) closed_world
  ∧ w_stores ((DBStore_Debug 0%nat true;; DBStore_SlowLog 0%nat 7) closed_world).2
      !! 0%nat
    = Some (mkDBStore (store_DB (mkDBStore None false 0)) true 7).
Proof.
  apply (DBStore_setters_commute 0%nat (mkDBStore None false 0)).
  vm_compute. reflexivity.
Defined.

(** ** The logging policy *)

Lemma debug_fires_iff w w' debug slowlog span sql args :
  new_log w w' = debug_lines debug sql args ++ slow_lines slowlog span sql args →
  debug_fires w w' ↔ debug = true.
Proof.
  intros H. unfold debug_fires. rewrite H. unfold debug_lines, slow_lines. split.
  - intros (q & a & Hin). destruct debug; [done|].
    destruct ((0 <? slowlog) && (slowlog <? span)); cbn in Hin.
    + apply list_elem_of_singleton in Hin. discriminate.
    + by apply elem_of_nil in Hin.
  - intros ->. exists sql, args. set_solver.
Qed.

Lemma log_lines_sublist debug slowlog span sql args :
  sublist (debug_lines debug sql args ++ slow_lines slowlog span sql args)
          [DEBUG sql args; SLOW span sql args].
Proof.
  unfold debug_lines, slow_lines.
  destruct debug; destruct ((0 <? slowlog) && (slowlog <? span)); cbn.
  - reflexivity.
  - apply sublist_skip, sublist_nil_l.
  - apply sublist_cons. reflexivity.
  - apply sublist_nil_l.
Qed.

(** A query or exec, on a store or on a transaction, prints a DEBUG line if
    and only if the debug flag of the receiver is set. *)
Theorem DEBUG_line_iff_debug_flag store s tx t sql args w :
  (w_stores w !! store = Some s →
   (debug_fires w (DBStore_Query store sql args w).2 ↔ store_debug s = true)
   ∧ (debug_fires w (DBStore_Exec store sql args w).2 ↔ store_debug s = true))
  ∧ (w_txs w !! tx = Some t →
     (debug_fires w (DBTx_Query tx sql args w).2 ↔ tx_debug t = true)
     ∧ (debug_fires w (DBTx_Exec tx sql args w).2 ↔ tx_debug t = true)).
Proof.
  split; [intros Hs|intros Ht]; split.
  - rewrite (DBStore_Query_run _ _ _ _ _ Hs).
    eapply debug_fires_iff, new_log_app; reflexivity.
  - rewrite (DBStore_Exec_run _ _ _ _ _ Hs).
    eapply debug_fires_iff, new_log_app; reflexivity.
  - rewrite (DBTx_Query_run _ _ _ _ _ Ht).
    eapply debug_fires_iff, new_log_app; reflexivity.
  - rewrite (DBTx_Exec_run _ _ _ _ _ Ht).
    eapply debug_fires_iff, new_log_app; reflexivity.
Qed.

(** On the quiet store and transaction of [slow_world]. *)
Lemma DEBUG_line_iff_debug_flag_witness :
  ((debug_fires slow_world (DBStore_Query 0%nat "SELECT 1" [] slow_world).2
      ↔ store_debug slow_store = true)
   ∧ (debug_fires slow_world (DBStore_Exec 0%nat "SELECT 1" [] slow_world).2
      ↔ store_debug slow_store = true))
  ∧ ((debug_fires slow_world (DBTx_Query 0%nat "SELECT 1" [] slow_world).2
        ↔ tx_debug slow_tx = true)
     ∧ (debug_fires slow_world (DBTx_Exec 0%nat "SELECT 1" [] slow_world).2
        ↔ tx_debug slow_tx = true)).
Proof.
  destruct (DEBUG_line_iff_debug_flag 0%nat slow_store 0%nat slow_tx
              "SELECT 1" [] slow_world) as [Hs Ht].
  split; [apply Hs|apply Ht]; vm_compute; reflexivity.
Defined.

(** What one call can print: at most a DEBUG line followed by a SLOW line,
    each at most once, both with the statement and the arguments of the call
    as given, the SLOW line with the duration the call measured. *)
Theorem log_lines_of_a_call store s tx t sql args w :
  (w_stores w !! store = Some s →
   sublist (new_log w (DBStore_Query store sql args w).2)
           [DEBUG sql args; SLOW (measured w) sql args]
   ∧ sublist (new_log w (DBStore_Exec store sql args w).2)
             [DEBUG sql args; SLOW (measured w) sql args])
  ∧ (w_txs w !! tx = Some t →
     sublist (new_log w (DBTx_Query tx sql args w).2)
             [DEBUG sql args; SLOW (measured w) sql args]
     ∧ sublist (new_log w (DBTx_Exec tx sql args w).2)
               [DEBUG sql args; SLOW (measured w) sql args]).
Proof.
  split; [intros Hs|intros Ht].
  - rewrite (DBStore_Query_run _ _ _ _ _ Hs), (DBStore_Exec_run _ _ _ _ _ Hs).
    cbn [snd].
    split; (erewrite new_log_app by reflexivity); apply log_lines_sublist.
  - rewrite (DBTx_Query_run _ _ _ _ _ Ht), (DBTx_Exec_run _ _ _ _ _ Ht).
    cbn [snd].
    split; (erewrite new_log_app by reflexivity); apply log_lines_sublist.
Qed.

(** Threshold 50ns, measured 80ns: the SLOW line alone. *)
Lemma log_lines_of_a_call_witness :
  (sublist (new_log slow_world (DBStore_Query 0%nat "SELECT 1" [] slow_world).2)
           [DEBUG "SELECT 1" []; SLOW (measured slow_world) "SELECT 1" []]
   ∧ sublist (new_log slow_world (DBStore_Exec 0%nat "SELECT 1" [] slow_world).2)
             [DEBUG "SELECT 1" []; SLOW (measured slow_world) "SELECT 1" []])
  ∧ (sublist (new_log slow_world (DBTx_Query 0%nat "SELECT 1" [] slow_world).2)
             [DEBUG "SELECT 1" []; SLOW (measured slow_world) "SELECT 1" []]
     ∧ sublist (new_log slow_world (DBTx_Exec 0%nat "SELECT 1" [] slow_world).2)
               [DEBUG "SELECT 1" []; SLOW (measured slow_world) "SELECT 1" []]).
Proof.
  destruct (log_lines_of_a_call 0%nat slow_store 0%nat slow_tx
              "SELECT 1" [] slow_world) as [Hs Ht].
  split; [apply Hs|apply Ht]; vm_compute; reflexivity.
Defined.

(** A new threshold counts from the next statement on: after [SlowLog], a
    query on the store prints a SLOW line if and only if the new threshold is
    positive and the measured duration exceeds it. *)
Theorem DBStore_SlowLog_then_Query store s d sql args w :
  w_stores w !! store = Some s →
  slow_fires w ((DBStore_SlowLog store d;; DBStore_Query store sql args) w).2
  ↔ 0 < d ∧ d < measured w.
Proof.
  intros Hs.
  rewrite (seq_run _ _ _ _ _ (DBStore_SlowLog_run _ _ d _ Hs)).
  erewrite DBStore_Query_run by (cbn; apply lookup_insert_eq).
  eapply slow_fires_iff, new_log_app. reflexivity.
Qed.

(** The threshold of the store of [slow_world] is lowered from 50ns to 7ns. *)
Lemma DBStore_SlowLog_then_Query_witness :
  slow_fires slow_world
    ((DBStore_SlowLog 0%nat 7;; DBStore_Query 0%nat "SELECT 1" []) slow_world).2
  ↔ 0 < 7 ∧ 7 < measured slow_world.
Proof.
  apply (DBStore_SlowLog_then_Query 0%nat slow_store).
  vm_compute. reflexivity.
Defined.

(** ** More on the tracing decorator *)

Lemma traced_Query_preserved db c sql args w :
  tracer_free (Query db sql args) →
  preserved "DB Query" (Some c) sql args
    (Query db sql args) (Query (OpenTrace (Some c) db) sql args) w.
Proof.
  intros Hm. unfold preserved. cbn [OpenTrace TracedDB_DB Query].
  rewrite TracedDB_Query_decorated. by apply decorated_tracer_free.
Qed.

Lemma traced_Exec_preserved db c sql args w :
  tracer_free (Exec db sql args) →
  preserved "DB Exec" (Some c) sql args
    (Exec db sql args) (Exec (OpenTrace (Some c) db) sql args) w.
Proof.
  intros Hm. unfold preserved. cbn [OpenTrace TracedDB_DB Exec].
  rewrite TracedDB_Exec_decorated. by apply decorated_tracer_free.
Qed.

Lemma length_opened sp s operationName ctx sql args :
  length (sp ++ span_opened s operationName ctx sql args) = S (S (length sp)).
Proof. rewrite length_app. cbn. lia. Qed.

Lemma decorated_stacked {A} operationName outer inner sql args
    (direct traced : M (A * option error)) w :
  tracer_free direct →
  (∀ w0, traced w0 = decorated operationName inner sql args direct w0) →
  stacked operationName outer inner sql args direct
    (decorated operationName outer sql args traced) w.
Proof.
  intros Hm Ht. unfold stacked, decorated at 1. rewrite Ht.
  rewrite decorated_tracer_free by done. unfold emit at 1. rewrite Hm.
  destruct (direct w) as [r w']. destruct w'; cbn.
  rewrite length_opened. unfold emit, span_opened. cbn.
  by rewrite <- !app_assoc.
Qed.

(** Decorators stack.  A traced executor wrapped once more, each decorator
    made with a context, returns what the store or transaction underneath
    returns when called directly, and the tracer receives two spans, the
    inner one opened after and closed before the outer one. *)
Theorem TracedDB_stacks (outer inner : ctx_ref) sql args w :
  (∀ tx,
     stacked "DB Query" (Some outer) (Some inner) sql args
       (Query (DBTx_DB tx) sql args)
       (Query (OpenTrace (Some outer) (OpenTrace (Some inner) (DBTx_DB tx)))
          sql args) w
     ∧ stacked "DB Exec" (Some outer) (Some inner) sql args
         (Exec (DBTx_DB tx) sql args)
         (Exec (OpenTrace (Some outer) (OpenTrace (Some inner) (DBTx_DB tx)))
            sql args) w)
  ∧ (∀ store,
       stacked "DB Query" (Some outer) (Some inner) sql args
         (Query (DBStore_DB store) sql args)
         (Query (OpenTrace (Some outer) (OpenTrace (Some inner) (DBStore_DB store)))
            sql args) w
       ∧ stacked "DB Exec" (Some outer) (Some inner) sql args
           (Exec (DBStore_DB store) sql args)
           (Exec (OpenTrace (Some outer) (OpenTrace (Some inner) (DBStore_DB store)))
              sql args) w).
Proof.
  split; intros p; split.
  - unfold stacked. cbn [OpenTrace TracedDB_DB Query].
    rewrite TracedDB_Query_decorated.
    apply decorated_stacked; [apply DBTx_Query_tracer_free|].
    intros w0. apply TracedDB_Query_decorated.
  - unfold stacked. cbn [OpenTrace TracedDB_DB Exec].
    rewrite TracedDB_Exec_decorated.
    apply decorated_stacked; [apply DBTx_Exec_tracer_free|].
    intros w0. apply TracedDB_Exec_decorated.
  - unfold stacked. cbn [OpenTrace TracedDB_DB Query].
    rewrite TracedDB_Query_decorated.
    apply decorated_stacked; [apply DBStore_Query_tracer_free|].
    intros w0. apply TracedDB_Query_decorated.
  - unfold stacked. cbn [OpenTrace TracedDB_DB Exec].
    rewrite TracedDB_Exec_decorated.
    apply decorated_stacked; [apply DBStore_Exec_tracer_free|].
    intros w0. apply TracedDB_Exec_decorated.
Qed.

Lemma error_tagged_of_preserved {A} operationName ctx sql args
    (direct traced : M (A * option error)) w :
  preserved operationName ctx sql args direct traced w →
  error_tagged (length (w_spans w)) w (traced w).2 (traced w).1.
Proof.
  unfold preserved. intros ->. destruct (direct w) as [r w'].
  unfold error_tagged, new_spans. cbn [fst snd set_spans w_spans].
  rewrite drop_app_length. unfold span_opened, span_closed.
  destruct r as [[v [e|]]|msg]; cbn [app].
  - split; [|split].
    + split; [intros _; by exists v, e|intros _; set_solver].
    + intros e'. split.
      * intros Hin. exists v. repeat (apply elem_of_cons in Hin as [Hin|Hin];
          [try discriminate|]); [congruence|by apply elem_of_nil in Hin].
      * intros (v' & [= _ <-]). set_solver.
    + set_solver.
  - split; [|split].
    + split; [|intros (v' & e' & [=])]. intros Hin.
      repeat (apply elem_of_cons in Hin as [Hin|Hin]; [discriminate|]).
      by apply elem_of_nil in Hin.
    + intros e'. split; [|intros (v' & [=])]. intros Hin.
      repeat (apply elem_of_cons in Hin as [Hin|Hin]; [discriminate|]).
      by apply elem_of_nil in Hin.
    + set_solver.
  - split; [|split].
    + split; [|intros (v' & e' & [=])]. intros Hin.
      repeat (apply elem_of_cons in Hin as [Hin|Hin]; [discriminate|]).
      by apply elem_of_nil in Hin.
    + intros e'. split; [|intros (v' & [=])]. intros Hin.
      repeat (apply elem_of_cons in Hin as [Hin|Hin]; [discriminate|]).
      by apply elem_of_nil in Hin.
    + set_solver.
Qed.

(** The span of a traced statement on a store or a transaction, the
    decorator made with a context, is marked as failed, and carries the
    error, exactly when the statement returned an error, and then it carries
    that error; it is finished in every case, also when the statement
    panicked. *)
Theorem TracedDB_tags_span_iff_error (c : ctx_ref) sql args w :
  (∀ tx,
     error_tagged (length (w_spans w)) w
       (Query (OpenTrace (Some c) (DBTx_DB tx)) sql args w).2
       (Query (OpenTrace (Some c) (DBTx_DB tx)) sql args w).1
     ∧ error_tagged (length (w_spans w)) w
         (Exec (OpenTrace (Some c) (DBTx_DB tx)) sql args w).2
         (Exec (OpenTrace (Some c) (DBTx_DB tx)) sql args w).1)
  ∧ (∀ store,
       error_tagged (length (w_spans w)) w
         (Query (OpenTrace (Some c) (DBStore_DB store)) sql args w).2
         (Query (OpenTrace (Some c) (DBStore_DB store)) sql args w).1
       ∧ error_tagged (length (w_spans w)) w
           (Exec (OpenTrace (Some c) (DBStore_DB store)) sql args w).2
           (Exec (OpenTrace (Some c) (DBStore_DB store)) sql args w).1).
Proof.
  split; intros p; split.
  - eapply error_tagged_of_preserved, traced_Query_preserved.
    apply DBTx_Query_tracer_free.
  - eapply error_tagged_of_preserved, traced_Exec_preserved.
    apply DBTx_Exec_tracer_free.
  - eapply error_tagged_of_preserved, traced_Query_preserved.
    apply DBStore_Query_tracer_free.
  - eapply error_tagged_of_preserved, traced_Exec_preserved.
    apply DBStore_Exec_tracer_free.
Qed.

Lemma traced_statement_on_tx operationName ctx sql args
    (direct traced : M (nat * option error)) tx t call w :
  w_txs w !! tx = Some t →
  preserved operationName ctx sql args direct traced w →
  (∃ w1, direct w
         = (Ret (rep_val (w_sql w (w_calls w) call),
                 rep_err (w_sql w (w_calls w) call)), w1)
         ∧ w_txs w1 = <[tx := with_err t (rep_err (w_sql w (w_calls w) call))]>
                        (w_txs w)
         ∧ w_done w1 = w_done w) →
  ∃ v err w',
    traced w = (Ret (v, err), w')
    ∧ tx_err <$> w_txs w' !! tx = Some err
    ∧ (is_Some err →
       new_calls w' (DBTx_Close tx w').2 = [Tx_Rollback (tx_tx t)]).
Proof.
  intros Ht Hp (w1 & Hd & Htxs & Hdone). unfold preserved in Hp.
  rewrite Hd in Hp. rewrite Hp.
  set (err := rep_err (w_sql w (w_calls w) call)) in *.
  do 3 eexists. split; [reflexivity|].
  set (w' := set_spans _ w1).
  assert (w_txs w' !! tx = Some (with_err t err)) as Ht'.
  { unfold w'. destruct w1. cbn in *. rewrite Htxs. apply lookup_insert_eq. }
  split; [by rewrite Ht'|].
  intros [e He]. rewrite (DBTx_Close_run _ _ _ Ht'). apply new_calls_app.
  cbn. rewrite close_call_rollback; [done|].
  eapply close_err_recorded. cbn. exact He.
Qed.

(** Tracing a transaction does not hide its failures from it.  A query or
    exec made through a decorator, made with a context, around a transaction
    returns, the error it returns is what the wrapped transaction holds in
    [tx.err], and if that error is not nil a [Close] of the transaction rolls
    back. *)
Theorem TracedDB_statement_records_on_wrapped_tx tx t (c : ctx_ref) sql args w :
  w_txs w !! tx = Some t →
  (∃ rows err w',
     Query (OpenTrace (Some c) (DBTx_DB tx)) sql args w = (Ret (rows, err), w')
     ∧ tx_err <$> w_txs w' !! tx = Some err
     ∧ (is_Some err →
        new_calls w' (DBTx_Close tx w').2 = [Tx_Rollback (tx_tx t)]))
  ∧ (∃ result err w',
       Exec (OpenTrace (Some c) (DBTx_DB tx)) sql args w = (Ret (result, err), w')
       ∧ tx_err <$> w_txs w' !! tx = Some err
       ∧ (is_Some err →
          new_calls w' (DBTx_Close tx w').2 = [Tx_Rollback (tx_tx t)])).
Proof.
  intros Ht. split.
  - eapply (traced_statement_on_tx _ _ _ _ _ _ _ _ (query_call t sql args));
      [exact Ht|apply traced_Query_preserved, DBTx_Query_tracer_free|].
    cbn [DBTx_DB Query]. rewrite (DBTx_Query_run _ _ _ _ _ Ht).
    eexists. split; [reflexivity|]. done.
  - eapply (traced_statement_on_tx _ _ _ _ _ _ _ _ (exec_call t sql args));
      [exact Ht|apply traced_Exec_preserved, DBTx_Exec_tracer_free|].
    cbn [DBTx_DB Exec]. rewrite (DBTx_Exec_run _ _ _ _ _ Ht).
    eexists. split; [reflexivity|]. done.
Qed.

(** On the traced transaction of [clean_world]. *)
Lemma TracedDB_statement_records_on_wrapped_tx_witness :
  (∃ rows err w',
     Query (OpenTrace (Some 5%nat) (DBTx_DB 0%nat)) "SELECT 1" [] clean_world
       = (Ret (rows, err), w')
     ∧ tx_err <$> w_txs w' !! 0%nat = Some err
     ∧ (is_Some err →
        new_calls w' (DBTx_Close 0%nat w').2 = [Tx_Rollback (tx_tx clean_tx)]))
  ∧ (∃ result err w',
       Exec (OpenTrace (Some 5%nat) (DBTx_DB 0%nat)) "SELECT 1" [] clean_world
         = (Ret (result, err), w')
       ∧ tx_err <$> w_txs w' !! 0%nat = Some err
       ∧ (is_Some err →
          new_calls w' (DBTx_Close 0%nat w').2 = [Tx_Rollback (tx_tx clean_tx)])).
Proof.
  apply (TracedDB_statement_records_on_wrapped_tx 0%nat clean_tx 5%nat).
  vm_compute. reflexivity.
Defined.

(** ** More on the factories *)

Lemma open_store_run driver dsn w :
  open_store driver dsn w
  = match rep_err (w_sql w (w_calls w) (sql_Open driver dsn)) with
    | Some err =>
        (Ret (None, Some err), set_calls (w_calls w ++ [sql_Open driver dsn]) w)
    | None =>
        (Ret (Some (fresh (dom (w_stores w))), None),
         set_calls (w_calls w ++ [sql_Open driver dsn])
           (set_stores
              (<[fresh (dom (w_stores w)) :=
                   mkDBStore
                     (Some (rep_val (w_sql w (w_calls w) (sql_Open driver dsn))))
                     false 0]> (w_stores w)) w))
    end.
Proof.
  destruct w as [clk tick sq calls dn lg sp st txs].
  unfold open_store, new_store. mrun.
  destruct (sq calls (sql_Open driver dsn)) as [v [e|]]; reflexivity.
Qed.

Lemma open_store_outcome driver dsn w :
  ∃ r w', open_store driver dsn w = (Ret r, w') ∧ factory_outcome w r w'.
Proof.
  rewrite open_store_run. destruct (rep_err _) as [e|]; do 2 eexists;
    (split; [reflexivity|]).
  - right. by exists e.
  - left. do 2 eexists. split; [reflexivity|]. split; [apply fresh_free|done].
Qed.

(** A factory call always returns, and in one of two ways: with a new store
    and no error, the store at a location that was free, with a handle, the
    debug flag off and a zero threshold, the other stores untouched; or with
    an error and no store, the heap as it was. *)
Theorem NewDBStore_outcomes unicode_ToLower driver host port database
    username password charset w :
  (∃ r w',
     NewDBStore unicode_ToLower driver host port database username password w
       = (Ret r, w')
     ∧ factory_outcome w r w')
  ∧ (∃ r w',
       NewDBStoreCharset unicode_ToLower driver host port database username
         password charset w
         = (Ret r, w')
       ∧ factory_outcome w r w').
Proof.
  unfold NewDBStore, NewDBStoreCharset.
  destruct (String.eqb _ "mysql"); [split; apply open_store_outcome|].
  destruct (String.eqb _ "mssql"); [split; apply open_store_outcome|].
  split; do 2 eexists; (split; [reflexivity|]); right; by eexists.
Qed.

(** For a SQL Server driver the character set is not used: the two factories
    do the same. *)
Theorem NewDBStoreCharset_mssql_ignores_charset unicode_ToLower driver host
    port database username password charset w :
  any_case_of "mssql" driver →
  NewDBStoreCharset unicode_ToLower driver host port database username
    password charset w
  = NewDBStore unicode_ToLower driver host port database username password w.
Proof.
  intros H. unfold NewDBStore, NewDBStoreCharset.
  by rewrite (ToLower_any_case unicode_ToLower "mssql" driver).
Qed.

(** For ["MSSQL"] and the character set ["latin1"]. *)
Lemma NewDBStoreCharset_mssql_ignores_charset_witness :
  NewDBStoreCharset no_unicode "MSSQL" "db1" 1433 "orm" "sa" "secret" "latin1"
    clean_begin
  = NewDBStore no_unicode "MSSQL" "db1" 1433 "orm" "sa" "secret" clean_begin.
Proof.
  apply (NewDBStoreCharset_mssql_ignores_charset no_unicode "MSSQL").
  vm_compute. reflexivity.
Defined.

Lemma append_inj_l s a b : s +:+ a = s +:+ b → a = b.
Proof. induction s as [|c s IH]; cbn; [done|]. intros [= H]. auto. Qed.

(** For a MySQL driver the character set goes into the data source name as
    given, and an empty one stands for [utf8].  That is not the character set
    of [NewDBStore], which is [utf8mb4]: the two factories agree on
    ["utf8mb4"], and open different data sources on the empty character
    set. *)
Theorem NewDBStoreCharset_mysql_charset unicode_ToLower driver host port
    database username password charset w :
  any_case_of "mysql" driver →
  new_calls w (NewDBStoreCharset unicode_ToLower driver host port database
                 username password charset w).2
  = [sql_Open driver
       (mysql_dsn username password host port database
          (if String.eqb charset EmptyString then "utf8" else charset))]
  ∧ new_calls w (NewDBStore unicode_ToLower driver host port database
                   username password w).2
    = [sql_Open driver
         (mysql_dsn username password host port database "utf8mb4")]
  ∧ NewDBStoreCharset unicode_ToLower driver host port database username
      password "utf8mb4" w
    = NewDBStore unicode_ToLower driver host port database username password w
  ∧ mysql_dsn username password host port database "utf8"
    ≠ mysql_dsn username password host port database "utf8mb4".
Proof.
  intros H. unfold NewDBStore, NewDBStoreCharset.
  rewrite (ToLower_any_case unicode_ToLower "mysql" driver) by done.
  cbn [String.eqb Ascii.eqb Bool.eqb]. cbv iota.
  split; [apply open_store_calls|]. split; [apply open_store_calls|].
  split; [reflexivity|].
  unfold mysql_dsn. intros Heq. repeat apply append_inj_l in Heq.
  discriminate Heq.
Qed.

(** For ["mysql"] and the empty character set. *)
Lemma NewDBStoreCharset_mysql_charset_witness :
  new_calls clean_begin
    (NewDBStoreCharset no_unicode "mysql" "db1" 3306 "orm" "scott" "tiger"
       EmptyString clean_begin).2
  = [sql_Open "mysql"
       (mysql_dsn "scott" "tiger" "db1" 3306 "orm"
          (if String.eqb EmptyString EmptyString then "utf8" else EmptyString))]
  ∧ new_calls clean_begin
      (NewDBStore no_unicode "mysql" "db1" 3306 "orm" "scott" "tiger"
         clean_begin).2
    = [sql_Open "mysql" (mysql_dsn "scott" "tiger" "db1" 3306 "orm" "utf8mb4")]
  ∧ NewDBStoreCharset no_unicode "mysql" "db1" 3306 "orm" "scott" "tiger"
      "utf8mb4" clean_begin
    = NewDBStore no_unicode "mysql" "db1" 3306 "orm" "scott" "tiger" clean_begin
  ∧ mysql_dsn "scott" "tiger" "db1" 3306 "orm" "utf8"
    ≠ mysql_dsn "scott" "tiger" "db1" 3306 "orm" "utf8mb4".
Proof.
  apply (NewDBStoreCharset_mysql_charset no_unicode "mysql").
  vm_compute. reflexivity.
Defined.

(** ** The later methods of the transaction *)

(** [GetContext] returns the context last given to [SetContext].  A
    [BeginTx] on the transaction starts nothing: it hands back the
    transaction itself with a nil error, leaves the world as it is, and does
    not adopt the context it is given. *)
Theorem DBTx_GetContext_round_trip tx t ctx ctx' w :
  w_txs w !! tx = Some t →
  ((DBTx_SetContext tx ctx;; DBTx_GetContext tx) w).1 = Ret ctx
  ∧ DBTx_BeginTx tx ctx' w = (Ret (Some tx, None), w)
  ∧ ((DBTx_BeginTx tx ctx';; DBTx_GetContext tx) w).1 = Ret (tx_Ctx t).
Proof.
  intros Ht. pose proof (SetContext_lookup tx t ctx w Ht) as Ht1.
  assert (∀ t0 w0, w_txs w0 !! tx = Some t0 →
                   DBTx_GetContext tx w0 = (Ret (tx_Ctx t0), w0)) as Hget.
  { intros t0 w0 H0. destruct w0; simpl in H0. destruct t0.
    unfold DBTx_GetContext. mrun. reflexivity. }
  split; [|split; [reflexivity|]].
  - rewrite (seq_run _ _ _ _ _ (DBTx_SetContext_run _ _ ctx _ Ht)).
    by rewrite (Hget _ _ Ht1).
  - erewrite seq_run by reflexivity. by rewrite (Hget _ _ Ht).
Qed.

(** On the transaction of [clean_world], bound to context 5. *)
Lemma DBTx_GetContext_round_trip_witness :
  ((DBTx_SetContext 0%nat (Some 9%nat);; DBTx_GetContext 0%nat) clean_world).1
    = Ret (Some 9%nat)
  ∧ DBTx_BeginTx 0%nat None clean_world = (Ret (Some 0%nat, None), clean_world)
  ∧ ((DBTx_BeginTx 0%nat None;; DBTx_GetContext 0%nat) clean_world).1
    = Ret (tx_Ctx clean_tx).
Proof.
  apply (DBTx_GetContext_round_trip 0%nat clean_tx (Some 9%nat) None).
  vm_compute. reflexivity.
Defined.

(** ** Closing a store, and what the data source names are made of *)

(** [Close] on an open store does one thing: it calls [Close] on the handle.
    It returns, the store keeps its debug flag and threshold, and the
    transactions begun on the store are left as they are, neither committed
    nor rolled back. *)
Theorem DBStore_Close_only_closes_the_handle store s h w :
  w_stores w !! store = Some s →
  store_DB s = Some h →
  ∃ err w' s',
    DBStore_Close store w = (Ret err, w')
    ∧ new_calls w w' = [DB_Close h]
    ∧ w_txs w' = w_txs w
    ∧ w_stores w' !! store = Some s'
    ∧ store_debug s' = store_debug s
    ∧ store_slowlog s' = store_slowlog s
    ∧ (store_DB s' = None ↔ err = None).
Proof.
  intros Hs Hh. rewrite (DBStore_Close_run _ _ _ Hs), Hh.
  destruct (rep_err _) as [e|].
  - exists (Some e), (set_calls (w_calls w ++ [DB_Close h]) w), s.
    split; [done|]. split; [by apply new_calls_app|].
    do 4 (split; [done|]). rewrite Hh. split; discriminate.
  - do 2 eexists. exists (mkDBStore None (store_debug s) (store_slowlog s)).
    split; [reflexivity|]. split; [by apply new_calls_app|].
    split; [done|]. split; [cbn; apply lookup_insert_eq|]. done.
Qed.

(** On the store of [clean_world], which has a transaction open. *)
Lemma DBStore_Close_only_closes_the_handle_witness :
  ∃ err w' s',
    DBStore_Close 0%nat clean_world = (Ret err, w')
    ∧ new_calls clean_world w' = [DB_Close 0%nat]
    ∧ w_txs w' = w_txs clean_world
    ∧ w_stores w' !! 0%nat = Some s'
    ∧ store_debug s' = store_debug (mkDBStore (Some 0%nat) false 0)
    ∧ store_slowlog s' = store_slowlog (mkDBStore (Some 0%nat) false 0)
    ∧ (store_DB s' = None ↔ err = None).
Proof.
  apply (DBStore_Close_only_closes_the_handle 0%nat
           (mkDBStore (Some 0%nat) false 0) 0%nat clean_world).
  - vm_compute. reflexivity.
  - reflexivity.
Defined.

Lemma append_assoc (a b c : string) : (a +:+ b) +:+ c = a +:+ (b +:+ c).
Proof.
  induction a as [|x a IH]; [done|].
  change (String x ((a +:+ b) +:+ c) = String x (a +:+ (b +:+ c))).
  by rewrite IH.
Qed.

(** The data source names are built by pasting the parameters between fixed
    separators, with no escaping: a separator inside a parameter moves the
    boundary.  A host that ends in [;user id=x] gives the same SQL Server
    name as a user that starts with [x;user id=], and a user [a:b] with
    password [c] the same MySQL name as user [a] with password [b:c]. *)
Theorem dsn_parameters_are_not_escaped host username password port database
    charset x :
  mssql_dsn (host +:+ ";user id=" +:+ x) username password port database
  = mssql_dsn host (x +:+ ";user id=" +:+ username) password port database
  ∧ mysql_dsn (username +:+ ":" +:+ x) password host port database charset
    = mysql_dsn username (x +:+ ":" +:+ password) host port database charset.
Proof.
  unfold mssql_dsn, mysql_dsn. by rewrite !append_assoc.
Qed.

(** ** The decorator without a context *)

(** A decorator made with a nil context cannot run a statement: a traced
    query or exec panics in the tracer's look-up of the parent span, before a
    span is started and before the wrapped executor is called, whatever that
    executor is; the world is left as it was. *)
Theorem TracedDB_nil_context_panics db sql args w :
  Query (OpenTrace None db) sql args w = (Panic nil_deref, w)
  ∧ Exec (OpenTrace None db) sql args w = (Panic nil_deref, w).
Proof. split; reflexivity. Qed.
